(** * ToteMaster YOLO service: item consolidation, tiering and the
      multi-photo handler

    Shallow embedding of [backend/python-yolo-service/main.py].

    - Python [str] values are [string]s (read them as the UTF-8 encoding
      of the Python string, so that equality and concatenation agree).
    - Python [int] is [Z]; Python [float] is an IEEE-754 binary64 value,
      a [spec_float] with precision 53 and maximal exponent 1024.
    - The built-in string methods [str.lower] and [str.title] are
      parameters of the model, so that what is proved holds for every
      string; their ASCII instances run the model on concrete inputs.
    - A Python exception (an instance of [Exception], which is what the
      [except] clauses of the source catch) is a value of [exn]; code that
      may raise returns a [result].  Logging is left out.
    - The [dict] used by [consolidate_items] keeps insertion order, so it
      is an association list. *)

From Stdlib Require Import ZArith List String Ascii Bool Lia Permutation.
From Stdlib Require Import DecimalString.
From Stdlib Require Import QArith Sorted.
From Stdlib Require Import Floats.SpecFloat.
Import ListNotations.

Local Open Scope Z_scope.
Local Open Scope string_scope.
Local Open Scope list_scope.

(** ** Exceptions and results *)

Inductive exn : Type :=
| KeyError (key : string)
| HTTPException (status_code : Z) (detail : string)
| OtherException (message : string).

Inductive result (A : Type) : Type :=
| Ok (value : A)
| Raise (e : exn).

Arguments Ok {A} value.
Arguments Raise {A} e.

Definition bind {A B : Type} (r : result A) (k : A -> result B) : result B :=
  match r with
  | Ok a => k a
  | Raise e => Raise e
  end.

Notation "x <- r ;; k" := (bind r (fun x => k))
  (at level 61, r at next level, right associativity).

(** ** Data model *)

(** [class DetectedItem(BaseModel)] *)
Record DetectedItem : Type := mkItem {
  name : string;
  description : string;
  category : string;
  quantity : Z;
  condition : string;
  confidence : string;
  aiGenerated : bool;
  sourcePhoto : string
}.

(** [class AnalyzeRequest(BaseModel)]; a URL is held as its string. *)
Record AnalyzeRequest : Type := mkRequest { photoUrl : string }.

(** [class AnalyzeMultipleRequest(BaseModel)] *)
Record AnalyzeMultipleRequest : Type :=
  mkMultipleRequest { photoUrls : list string }.

(** [class AnalysisResponse(BaseModel)] *)
Record AnalysisResponse : Type := mkResponse {
  items : list DetectedItem;
  photosAnalyzed : Z
}.

(** One entry of the list returned by [detect_objects]:
    [{'class': class_name, 'confidence': conf}]. *)
Record Detection : Type := mkDetection {
  det_class : string;
  det_confidence : spec_float
}.

(** Attribute assignments [obj.quantity = q] and [obj.confidence = c]. *)
Definition set_quantity (it : DetectedItem) (q : Z) : DetectedItem :=
  mkItem (name it) (description it) (category it) q (condition it)
         (confidence it) (aiGenerated it) (sourcePhoto it).

Definition set_confidence (it : DetectedItem) (c : string) : DetectedItem :=
  mkItem (name it) (description it) (category it) (quantity it) (condition it)
         c (aiGenerated it) (sourcePhoto it).

(** ** Insertion-ordered dictionaries *)

Definition dict_of (V : Type) : Type := list (string * V).

Fixpoint dict_get {V : Type} (m : dict_of V) (key : string) : option V :=
  match m with
  | [] => None
  | (k, v) :: m' => if String.eqb k key then Some v else dict_get m' key
  end.

(** [m[key] = v]: an existing key keeps its position, a new key goes last. *)
Fixpoint dict_set {V : Type} (m : dict_of V) (key : string) (v : V)
  : dict_of V :=
  match m with
  | [] => [(key, v)]
  | (k, v0) :: m' =>
      if String.eqb k key then (k, v) :: m' else (k, v0) :: dict_set m' key v
  end.

Definition dict_keys {V : Type} (m : dict_of V) : list string := map fst m.
Definition dict_values {V : Type} (m : dict_of V) : list V := map snd m.

(** The dictionary of [consolidate_items], its values taken as records. *)
Definition dict : Type := dict_of DetectedItem.

(** ** ASCII instances of the string built-ins *)

(** They agree with [str.lower] and [str.title] on ASCII strings only and
    serve to run the model on such inputs. *)

Definition is_upper (c : ascii) : bool :=
  let n := nat_of_ascii c in Nat.leb 65 n && Nat.leb n 90.

Definition is_lower (c : ascii) : bool :=
  let n := nat_of_ascii c in Nat.leb 97 n && Nat.leb n 122.

Definition to_lower (c : ascii) : ascii :=
  if is_upper c then ascii_of_nat (nat_of_ascii c + 32) else c.

Definition to_upper (c : ascii) : ascii :=
  if is_lower c then ascii_of_nat (nat_of_ascii c - 32) else c.

Fixpoint ascii_lower (s : string) : string :=
  match s with
  | EmptyString => EmptyString
  | String c r => String (to_lower c) (ascii_lower r)
  end.

(** [str.title]: a cased character is upper-cased when it follows an
    uncased one (or starts the string) and lower-cased otherwise. *)
Fixpoint title_from (prev_cased : bool) (s : string) : string :=
  match s with
  | EmptyString => EmptyString
  | String c r =>
      let cased := is_upper c || is_lower c in
      String (if prev_cased then to_lower c else to_upper c)
             (title_from cased r)
  end.

Definition ascii_title (s : string) : string := title_from false s.

(** ** The consolidation routine *)

(** [confidence_levels = {'high': 3, 'medium': 2, 'low': 1}];
    [confidence_levels[c]] raises [KeyError] on any other string. *)
Definition confidence_levels (c : string) : result Z :=
  if String.eqb c "high" then Ok 3
  else if String.eqb c "medium" then Ok 2
  else if String.eqb c "low" then Ok 1
  else Raise (KeyError c).

Section Consolidate.

Variable lower : string -> string.

(** [key = f"{item.name.lower()}-{item.category}"] *)
Definition item_key (item : DetectedItem) : string :=
  lower (name item) ++ "-" ++ category item.

(** The branch taken when [key in item_map]: the statements applied to
    the representative [item_map[key]] for the incoming [item]. *)
Definition merge_into (rep item : DetectedItem) : result DetectedItem :=
  let rep1 := set_quantity rep (quantity rep + 1) in
  current_level <- confidence_levels (confidence rep1) ;;
  new_level <- confidence_levels (confidence item) ;;
  if new_level >? current_level
  then Ok (set_confidence rep1 (confidence item))
  else Ok rep1.

(** One iteration of [for item in items]. *)
Definition consolidate_step (item_map : dict) (item : DetectedItem)
  : result dict :=
  let key := item_key item in
  match dict_get item_map key with
  | Some rep =>
      rep' <- merge_into rep item ;;
      Ok (dict_set item_map key rep')
  | None => Ok (dict_set item_map key item)
  end.

Fixpoint consolidate_loop (items : list DetectedItem) (item_map : dict)
  : result dict :=
  match items with
  | [] => Ok item_map
  | item :: rest =>
      item_map' <- consolidate_step item_map item ;;
      consolidate_loop rest item_map'
  end.

(** [def consolidate_items(items)] *)
Definition consolidate_items (items : list DetectedItem)
  : result (list DetectedItem) :=
  item_map <- consolidate_loop items [] ;;
  Ok (dict_values item_map).

End Consolidate.

(** ** Python floats and the tier thresholds *)

(** binary64: 53 bits of precision, exponents below 1024. *)
Definition prec : Z := 53.
Definition emax : Z := 1024.

Definition is_float (x : spec_float) : bool := valid_binary prec emax x.

(** [x >= y] on floats: false as soon as one side is a NaN. *)
Definition float_ge (x y : spec_float) : bool := SFleb y x.

(** The literals [0.8] and [0.5], as the doubles Python reads them. *)
Definition float_0_8 : spec_float := S754_finite false 7205759403792794 (-53).
Definition float_0_5 : spec_float := S754_finite false 4503599627370496 (-53).

(** The doubles of the literals [0.7999] and [0.4999]. *)
Definition float_0_7999 : spec_float :=
  S754_finite false 7204858683867320 (-53).
Definition float_0_4999 : spec_float :=
  S754_finite false 9005397814890044 (-54).

(** The rational number [(-1)^s * m * 2^e] a finite float stands for. *)
Definition float_value (s : bool) (m : positive) (e : Z) : Q :=
  let sm := if s then Zneg m else Zpos m in
  match e with
  | Z0 => sm # 1
  | Zpos p => (sm * 2 ^ Zpos p) # 1
  | Zneg p => sm # (2 ^ p)
  end.

(** [value_ge x q]: the float [x] is at least the rational [q] in the
    extended reals; a NaN is not comparable to anything. *)
Definition value_ge (x : spec_float) (q : Q) : Prop :=
  match x with
  | S754_nan => False
  | S754_infinity s => s = false
  | S754_zero _ => (q <= 0)%Q
  | S754_finite s m e => (q <= float_value s m e)%Q
  end.

(** [nearest_double x q]: [x] is a finite double at distance at most half
    a unit in the last place of [x] from [q], as the reading of a decimal
    literal guarantees. *)
Definition nearest_double (x : spec_float) (q : Q) : Prop :=
  is_float x = true /\
  match x with
  | S754_finite s m e =>
      (float_value s m e - float_value false 1 (e - 1) <= q)%Q /\
      (q <= float_value s m e + float_value false 1 (e - 1))%Q
  | _ => False
  end.

(** ** Formatting a float as a percentage *)

(** The double [100.0], by which [format] multiplies for the [%] type. *)
Definition float_100 : spec_float := S754_finite false 7036874417766400 (-46).

(** The integer nearest to [m * 2^e], ties going to the even one: the
    digits of the fixed-point notation with precision 0. *)
Definition round_half_even (m : positive) (e : Z) : Z :=
  match e with
  | Zneg p =>
      let d := 2 ^ Zpos p in
      let q := Zpos m / d in
      let r := Zpos m mod d in
      match 2 * r ?= d with
      | Lt => q
      | Gt => q + 1
      | Eq => if Z.even q then q else q + 1
      end
  | _ => Zpos m * 2 ^ e
  end.

(** [f"{x:.0%}"]: the float is multiplied by 100 as a float, then written
    in fixed-point notation without decimals, followed by a percent sign. *)
Definition format_percent (x : spec_float) : string :=
  match SFmul prec emax x float_100 with
  | S754_nan => "nan%"
  | S754_infinity s => if s then "-inf%" else "inf%"
  | S754_zero s => if s then "-0%" else "0%"
  | S754_finite s m e =>
      (if s then "-" else "") ++
      NilZero.string_of_uint (N.to_uint (Z.to_N (round_half_even m e))) ++ "%"
  end.

(** ** The item builder *)

(** [CATEGORY_MAPPING] *)
Definition CATEGORY_MAPPING : list (string * string) :=
  [ ("laptop", "electronics"); ("cell phone", "electronics");
    ("tv", "electronics"); ("keyboard", "electronics");
    ("mouse", "electronics"); ("remote", "electronics");
    ("clock", "electronics");
    ("bottle", "kitchen"); ("wine glass", "kitchen"); ("cup", "kitchen");
    ("fork", "kitchen"); ("knife", "kitchen"); ("spoon", "kitchen");
    ("bowl", "kitchen"); ("banana", "kitchen"); ("apple", "kitchen");
    ("orange", "kitchen"); ("broccoli", "kitchen"); ("carrot", "kitchen");
    ("pizza", "kitchen"); ("donut", "kitchen"); ("cake", "kitchen");
    ("refrigerator", "kitchen"); ("microwave", "kitchen");
    ("oven", "kitchen"); ("toaster", "kitchen");
    ("handbag", "clothing"); ("tie", "clothing"); ("suitcase", "clothing");
    ("umbrella", "clothing"); ("backpack", "clothing");
    ("frisbee", "sports"); ("skis", "sports"); ("snowboard", "sports");
    ("sports ball", "sports"); ("kite", "sports");
    ("baseball bat", "sports"); ("baseball glove", "sports");
    ("skateboard", "sports"); ("surfboard", "sports");
    ("tennis racket", "sports");
    ("book", "books"); ("teddy bear", "toys");
    ("scissors", "tools"); ("hair drier", "tools"); ("toothbrush", "tools");
    ("chair", "decorations"); ("couch", "decorations");
    ("potted plant", "decorations"); ("bed", "decorations");
    ("dining table", "decorations"); ("toilet", "decorations");
    ("sink", "decorations"); ("vase", "decorations") ].

(** [mapping.get(key, default)] *)
Fixpoint mapping_get (mapping : list (string * string)) (key default : string)
  : string :=
  match mapping with
  | [] => default
  | (k, v) :: rest =>
      if String.eqb k key then v else mapping_get rest key default
  end.

(** The [if]/[elif]/[else] that picks [confidence_level]. *)
Definition confidence_level_of (confidence_score : spec_float) : string :=
  if float_ge confidence_score float_0_8 then "high"
  else if float_ge confidence_score float_0_5 then "medium"
  else "low".

Section Service.

Variable lower title : string -> string.

(** [str(e)] for an exception [e]. *)
Variable str_of_exn : exn -> string.

(** [def map_detection_to_item(detection, photo_url)] *)
Definition map_detection_to_item (detection : Detection) (photo_url : string)
  : DetectedItem :=
  let class_name := det_class detection in
  let confidence_score := det_confidence detection in
  let category :=
    mapping_get CATEGORY_MAPPING (lower class_name) "uncategorized" in
  let item_name := title class_name in
  let description :=
    ("Detected with " ++ format_percent confidence_score
     ++ " confidence")%string in
  let confidence_level := confidence_level_of confidence_score in
  let condition := "good" in
  mkItem item_name description category 1 condition confidence_level true
         photo_url.

(** *** The outside world *)

(** The state of everything outside the process (network, model). *)
Variable World : Type.
Variable Image : Type.

(** [requests.get(url, timeout=10)], [raise_for_status()] and
    [Image.open(BytesIO(content))]; any of them may raise. *)
Variable http_get_image : string -> World -> result Image * World.

(** [model(image, conf=threshold)], flattened to the class index and
    confidence of every box of every result; it may raise. *)
Variable run_model :
  Image -> spec_float -> World -> result (list (Z * spec_float)) * World.

(** [model.names[cls]], the label of a class index; the lookup may
    raise. *)
Variable model_names : Z -> result string.

(** Computations that read and change the world and may raise. *)
Definition io (A : Type) : Type := World -> result A * World.

Definition io_ret {A : Type} (a : A) : io A := fun w => (Ok a, w).

Definition io_bind {A B : Type} (c : io A) (k : A -> io B) : io B :=
  fun w =>
    match c w with
    | (Ok a, w') => k a w'
    | (Raise e, w') => (Raise e, w')
    end.

Definition io_lift {A : Type} (r : result A) : io A := fun w => (r, w).

(** [try: c  except Exception as e: h e] *)
Definition io_try {A : Type} (c : io A) (h : exn -> io A) : io A :=
  fun w =>
    match c w with
    | (Ok a, w') => (Ok a, w')
    | (Raise e, w') => h e w'
    end.

Local Notation "x <~ c ;; k" := (io_bind c (fun x => k))
  (at level 61, c at next level, right associativity).

(** [def download_image(url)] *)
Definition download_image (url : string) : io Image :=
  io_try (http_get_image url)
    (fun e => io_lift (Raise (HTTPException 400
                ("Failed to download image: " ++ str_of_exn e)))).

(** The body of the two [for] loops of [detect_objects]. *)
Fixpoint collect_detections (boxes : list (Z * spec_float))
  : result (list Detection) :=
  match boxes with
  | [] => Ok []
  | (cls, conf) :: rest =>
      class_name <- model_names cls ;;
      detections <- collect_detections rest ;;
      Ok (mkDetection class_name conf :: detections)
  end.

(** [def detect_objects(image, confidence_threshold=0.5)] *)
Definition detect_objects (image : Image) (confidence_threshold : spec_float)
  : io (list Detection) :=
  io_try (boxes <~ run_model image confidence_threshold ;;
          io_lift (collect_detections boxes))
    (fun e => io_lift (Raise (HTTPException 500
                ("Detection failed: " ++ str_of_exn e)))).

(** What both handlers do for one photo: download, detect, build. *)
Definition photo_items (photo_url : string) : io (list DetectedItem) :=
  image <~ download_image photo_url ;;
  detections <~ detect_objects image float_0_5 ;;
  io_ret (map (fun det => map_detection_to_item det photo_url) detections).

(** [async def analyze_photo(request)] *)
Definition analyze_photo (request : AnalyzeRequest) : io AnalysisResponse :=
  items <~ photo_items (photoUrl request) ;;
  consolidated_items <~ io_lift (consolidate_items lower items) ;;
  io_ret (mkResponse consolidated_items 1).

(** The [for photo_url in request.photoUrls] loop: an exception raised
    for one photo is caught and the loop continues with the next. *)
Fixpoint analyze_loop (urls : list string) (all_items : list DetectedItem)
  (w : World) : list DetectedItem * World :=
  match urls with
  | [] => (all_items, w)
  | photo_url :: rest =>
      match photo_items photo_url w with
      | (Ok items, w') => analyze_loop rest (all_items ++ items) w'
      | (Raise _, w') => analyze_loop rest all_items w'
      end
  end.

(** [async def analyze_multiple_photos(request)] *)
Definition analyze_multiple_photos (request : AnalyzeMultipleRequest)
  : io AnalysisResponse :=
  fun w =>
    let (all_items, w') := analyze_loop (photoUrls request) [] w in
    (consolidated_items <- consolidate_items lower all_items ;;
     Ok (mkResponse consolidated_items
           (Z.of_nat (List.length (photoUrls request)))),
     w').

(** Every photo of the request fails, in the worlds the loop goes
    through. *)
Fixpoint all_photos_fail (urls : list string) (w : World) : Prop :=
  match urls with
  | [] => True
  | photo_url :: rest =>
      exists e w', photo_items photo_url w = (Raise e, w')
                   /\ all_photos_fail rest w'
  end.

End Service.

(** ** Vocabulary of the specification *)

(** The tiers, and their rank under [low < medium < high]; a string that
    is no tier has rank 0. *)
Definition is_tier (c : string) : bool :=
  String.eqb c "high" || String.eqb c "medium" || String.eqb c "low".

Definition valid_tier (item : DetectedItem) : Prop :=
  is_tier (confidence item) = true.

Definition level (item : DetectedItem) : Z :=
  match confidence_levels (confidence item) with
  | Ok n => n
  | Raise _ => 0
  end.

Definition max_level (items : list DetectedItem) : Z :=
  fold_right Z.max 0 (map level items).

(** The rank of a tier as the specification orders them,
    [low(1) < medium(2) < high(3)], written out on its own and not read
    from the table [confidence_levels] of the code; any other string has
    rank 0. *)
Definition tier_rank (c : string) : Z :=
  if String.eqb c "low" then 1
  else if String.eqb c "medium" then 2
  else if String.eqb c "high" then 3
  else 0.

(** The fields a merge is not meant to touch. *)
Definition same_identity (a b : DetectedItem) : Prop :=
  name a = name b /\ category a = category b /\
  description a = description b /\ condition a = condition b /\
  aiGenerated a = aiGenerated b /\ sourcePhoto a = sourcePhoto b.

(** The keys of a list in order of first appearance, skipping those
    already [seen]. *)
Fixpoint first_occurrences (seen ks : list string) : list string :=
  match ks with
  | [] => []
  | k :: rest =>
      if existsb (String.eqb k) seen then first_occurrences seen rest
      else k :: first_occurrences (seen ++ [k]) rest
  end.

(** Position of the first occurrence of [k] (the length when absent). *)
Fixpoint index_of (k : string) (ks : list string) : nat :=
  match ks with
  | [] => O
  | k' :: rest => if String.eqb k' k then O else S (index_of k rest)
  end.

Section Specification.

Variable lower : string -> string.

(** The consolidation key of the specification: the pair
    [(lowercase(name), category)]. *)
Definition consolidation_key (item : DetectedItem) : string * string :=
  (lower (name item), category item).

Definition key_eqb (k1 k2 : string * string) : bool :=
  String.eqb (fst k1) (fst k2) && String.eqb (snd k1) (snd k2).

Definition has_key (k : string * string) (item : DetectedItem) : bool :=
  key_eqb (consolidation_key item) k.

(** Position of the first item with consolidation key [k]
    (the length of the list when there is none). *)
Fixpoint first_index (k : string * string) (items : list DetectedItem) : nat :=
  match items with
  | [] => O
  | item :: rest => if has_key k item then O else S (first_index k rest)
  end.

(** The first item with consolidation key [k]. *)
Definition first_with_key (k : string * string) (items : list DetectedItem)
  : option DetectedItem :=
  find (has_key k) items.

(** How many items have consolidation key [k]. *)
Definition count_key (k : string * string) (items : list DetectedItem) : nat :=
  List.length (filter (has_key k) items).

(** No two items of the list with different consolidation keys are
    given the same dictionary key by [item_key]. *)
Definition collision_free (items : list DetectedItem) : Prop :=
  forall a b, In a items -> In b items ->
    item_key lower a = item_key lower b ->
    consolidation_key a = consolidation_key b.

(** The test [key == k] on the dictionary key of an item. *)
Definition keyed (k : string) (item : DetectedItem) : bool :=
  String.eqb (item_key lower item) k.

(** What the loop keeps true of [item_map]: no key twice, and every
    value stored under its own key. *)
Definition dict_ok (m : dict) : Prop :=
  NoDup (dict_keys m) /\
  Forall (fun kv => item_key lower (snd kv) = fst kv) m.

(** Folding the duplicates [dups] into the representative [rep], in
    order. *)
Fixpoint merge_all (rep : DetectedItem) (dups : list DetectedItem)
  : result DetectedItem :=
  match dups with
  | [] => Ok rep
  | d :: rest => rep' <- merge_into rep d ;; merge_all rep' rest
  end.

End Specification.

(** ** The routine on objects and references *)

(** [consolidate_items] stores the items it is given in [item_map] and
    updates them in place, so the items of the input and the items of the
    output are the same objects, and one object may occur several times in
    the input.  The objects live in a heap, by address; lists and
    dictionaries hold references. *)

Definition heap : Type := list DetectedItem.
Definition ref : Type := nat.

Definition heap_get (h : heap) (r : ref) : option DetectedItem := nth_error h r.

Fixpoint heap_set (h : heap) (r : ref) (v : DetectedItem) : heap :=
  match h, r with
  | [], _ => []
  | _ :: rest, O => v :: rest
  | x :: rest, S r' => x :: heap_set rest r' v
  end.

(** Computations on the heap that may raise; what was written before an
    exception stays written. *)
Definition mem (A : Type) : Type := heap -> result A * heap.

Definition mem_ret {A : Type} (a : A) : mem A := fun h => (Ok a, h).

Definition mem_bind {A B : Type} (c : mem A) (k : A -> mem B) : mem B :=
  fun h =>
    match c h with
    | (Ok a, h') => k a h'
    | (Raise e, h') => (Raise e, h')
    end.

Definition mem_lift {A : Type} (r : result A) : mem A := fun h => (r, h).

(** Reading the object behind a reference, and writing it back. *)
Definition load (r : ref) : mem DetectedItem :=
  fun h =>
    match heap_get h r with
    | Some v => (Ok v, h)
    | None => (Raise (OtherException "dangling reference"), h)
    end.

Definition store (r : ref) (v : DetectedItem) : mem unit :=
  fun h => (Ok tt, heap_set h r v).

Notation "x <-- c ;; k" := (mem_bind c (fun x => k))
  (at level 61, c at next level, right associativity).

(** The references [refs] lead to the records [values] in the heap [h]. *)
Definition points_to (h : heap) (refs : list ref) (values : list DetectedItem)
  : Prop :=
  Forall2 (fun r v => heap_get h r = Some v) refs values.

(** The entry [kr] of a dictionary of references is the entry [kv] of a
    dictionary of records, in the heap [h]. *)
Definition held (h : heap) (kr : string * ref) (kv : string * DetectedItem)
  : Prop :=
  fst kr = fst kv /\ heap_get h (snd kr) = Some (snd kv).

Section ConsolidateReferences.

Variable lower : string -> string.

(** One iteration of [for item in items], statement by statement. *)
Definition consolidate_step_ref (item_map : dict_of ref) (item : ref)
  : mem (dict_of ref) :=
  it <-- load item ;;
  let key := item_key lower it in
  match dict_get item_map key with
  | Some rep =>
      (* item_map[key].quantity += 1 *)
      old <-- load rep ;;
      _ <-- store rep (set_quantity old (quantity old + 1)) ;;
      (* current_level = confidence_levels[item_map[key].confidence] *)
      cur <-- load rep ;;
      current_level <-- mem_lift (confidence_levels (confidence cur)) ;;
      (* new_level = confidence_levels[item.confidence] *)
      new <-- load item ;;
      new_level <-- mem_lift (confidence_levels (confidence new)) ;;
      (* if new_level > current_level:
             item_map[key].confidence = item.confidence *)
      if new_level >? current_level
      then
        src <-- load item ;;
        dst <-- load rep ;;
        _ <-- store rep (set_confidence dst (confidence src)) ;;
        mem_ret item_map
      else mem_ret item_map
  | None =>
      (* item_map[key] = item *)
      mem_ret (dict_set item_map key item)
  end.

Fixpoint consolidate_loop_ref (items : list ref) (item_map : dict_of ref)
  : mem (dict_of ref) :=
  match items with
  | [] => mem_ret item_map
  | item :: rest =>
      item_map' <-- consolidate_step_ref item_map item ;;
      consolidate_loop_ref rest item_map'
  end.

(** [def consolidate_items(items)], on references. *)
Definition consolidate_items_ref (items : list ref) : mem (list ref) :=
  item_map <-- consolidate_loop_ref items [] ;;
  mem_ret (dict_values item_map).

(** The dictionary of references [rm] in the heap [h] stands for the
    dictionary of records [m]; [h0] is the heap at the call. *)
Definition stands_for (h0 h : heap) (rm : dict_of ref) (m : dict) : Prop :=
  Forall2 (held h) rm m /\
  dict_ok lower m /\
  (forall a, ~ In a (dict_values rm) -> heap_get h a = heap_get h0 a) /\
  (forall a v v0, heap_get h a = Some v -> heap_get h0 a = Some v0 ->
     same_identity v v0 /\
     (confidence v = confidence v0 \/
      valid_tier v0 /\ valid_tier v /\ level v0 <= level v)) /\
  List.length h = List.length h0.

(** A run on references and a run on records end alike: both return,
    with [related] results, or both raise the same exception. *)
Definition ends_alike {A B : Type} (related : heap -> A -> B -> Prop)
  (on_refs : result A * heap) (on_records : result B) : Prop :=
  match on_refs, on_records with
  | (Ok a, h'), Ok b => related h' a b
  | (Raise e, _), Raise e' => e = e'
  | _, _ => False
  end.

End ConsolidateReferences.

(** ** Further vocabulary *)

(** The sum of the quantities of a list of items. *)
Definition total_quantity (items : list DetectedItem) : Z :=
  fold_right Z.add 0 (map quantity items).

(** Whether a string contains the separator ["-"] of [item_key]. *)
Fixpoint has_dash (s : string) : bool :=
  match s with
  | EmptyString => false
  | String c rest => Ascii.eqb c "-" || has_dash rest
  end.

(** The categories an item can be given by the item builder. *)
Definition categories : list string :=
  "uncategorized" :: map snd CATEGORY_MAPPING.

(** ** Sample inputs *)

Definition laptop (q : Z) (c photo : string) : DetectedItem :=
  mkItem "Laptop" "Test" "electronics" q "good" c true photo.

Definition three_laptops : list DetectedItem :=
  [ mkItem "Laptop" "a" "electronics" 1 "good" "low" true "p1";
    mkItem "LAPTOP" "b" "electronics" 1 "good" "high" true "p2";
    mkItem "laptop" "c" "electronics" 1 "good" "medium" true "p3" ].

(** Two photos: a laptop and a mouse, then the laptop again and a cup. *)
Definition mixed_items : list DetectedItem :=
  [ mkItem "Laptop" "Detected with 55% confidence" "electronics" 1 "good"
      "medium" true "p1";
    mkItem "Mouse" "Detected with 85% confidence" "electronics" 1 "good"
      "high" true "p1";
    mkItem "Laptop" "Detected with 92% confidence" "electronics" 1 "good"
      "high" true "p2";
    mkItem "Cup" "Detected with 40% confidence" "kitchen" 1 "good"
      "low" true "p2" ].

(** The doubles of [0.92], [0.88] and [0.85]. *)
Definition float_0_92 : spec_float := S754_finite false 8286623314361713 (-53).
Definition float_0_88 : spec_float := S754_finite false 7926335344172073 (-53).
Definition float_0_85 : spec_float := S754_finite false 7656119366529843 (-53).

(** A world to run the handlers in.  Its state counts the calls made to
    the outside; the image behind a URL is the URL itself; the first photo
    shows a laptop, the second a laptop and a mouse, and nothing else can
    be downloaded. *)
Definition photo_1 : string := "http://localhost:3000/uploads/photo1.jpg".
Definition photo_2 : string := "http://localhost:3000/uploads/photo2.jpg".
Definition photo_3 : string := "http://localhost:3000/uploads/photo3.jpg".

Definition sample_http (url : string) (calls : nat) : result string * nat :=
  if String.eqb url photo_1 || String.eqb url photo_2
  then (Ok url, S calls)
  else (Raise (OtherException "404 Client Error"), S calls).

Definition sample_model (image : string) (threshold : spec_float)
  (calls : nat) : result (list (Z * spec_float)) * nat :=
  if String.eqb image photo_1 then (Ok [(63, float_0_92)], S calls)
  else if String.eqb image photo_2
       then (Ok [(63, float_0_88); (64, float_0_85)], S calls)
       else (Raise (OtherException "inference failed"), S calls).

Definition sample_names (cls : Z) : result string :=
  if Z.eqb cls 63 then Ok "laptop"
  else if Z.eqb cls 64 then Ok "mouse"
  else Raise (KeyError "cls").

Definition sample_str (e : exn) : string :=
  match e with
  | KeyError k => "'" ++ k ++ "'"
  | HTTPException _ d => d
  | OtherException m => m
  end.

(** * Properties *)

(** ** Dictionaries *)

Lemma dict_get_set_same {V : Type} (m : dict_of V) (k : string) (v : V) :
  dict_get (dict_set m k v) k = Some v.
Proof.
  induction m as [|[k0 v0] m IH]; simpl.
  - now rewrite String.eqb_refl.
  - destruct (String.eqb k0 k) eqn:E; simpl; rewrite ?E; auto.
Qed.

Lemma dict_get_set_other {V : Type} (m : dict_of V) (k k' : string) (v : V) :
  k <> k' -> dict_get (dict_set m k v) k' = dict_get m k'.
Proof.
  intros Hne. induction m as [|[k0 v0] m IH]; simpl.
  - destruct (String.eqb_spec k k'); congruence.
  - destruct (String.eqb_spec k0 k) as [->|Hk]; simpl.
    + destruct (String.eqb_spec k k'); congruence.
    + now rewrite IH.
Qed.

Lemma dict_get_None {V : Type} (m : dict_of V) (k : string) :
  dict_get m k = None <-> ~ In k (dict_keys m).
Proof.
  induction m as [|[k0 v0] m IH]; simpl.
  - tauto.
  - destruct (String.eqb_spec k0 k) as [->|Hk].
    + split; [discriminate | intros H; exfalso; apply H; now left].
    + rewrite IH. tauto.
Qed.

Lemma dict_get_In {V : Type} (m : dict_of V) (k : string) (v : V) :
  dict_get m k = Some v -> In (k, v) m.
Proof.
  induction m as [|[k0 v0] m IH]; simpl; [discriminate|].
  destruct (String.eqb_spec k0 k) as [->|Hk].
  - intros [= ->]. now left.
  - intros H. right. auto.
Qed.

Lemma dict_In_get {V : Type} (m : dict_of V) (k : string) (v : V) :
  NoDup (dict_keys m) -> In (k, v) m -> dict_get m k = Some v.
Proof.
  induction m as [|[k0 v0] m IH]; simpl; [tauto|].
  intros Hnd [Heq|Hin].
  - inversion Heq; subst. now rewrite String.eqb_refl.
  - inversion Hnd as [|? ? Hnotin Hnd']; subst.
    destruct (String.eqb_spec k0 k) as [->|Hk].
    + exfalso. apply Hnotin. change k with (fst (k, v)). now apply in_map.
    + auto.
Qed.

Lemma dict_set_present {V : Type} (m : dict_of V) (k : string) (v v0 : V) :
  dict_get m k = Some v0 -> dict_keys (dict_set m k v) = dict_keys m.
Proof.
  induction m as [|[k1 v1] m IH]; simpl; [discriminate|].
  destruct (String.eqb_spec k1 k) as [->|Hk]; simpl.
  - reflexivity.
  - intros H. f_equal. auto.
Qed.

Lemma dict_set_absent {V : Type} (m : dict_of V) (k : string) (v : V) :
  dict_get m k = None -> dict_set m k v = m ++ [(k, v)].
Proof.
  induction m as [|[k1 v1] m IH]; simpl; [reflexivity|].
  destruct (String.eqb_spec k1 k) as [->|Hk]; [discriminate|].
  intros H. f_equal. auto.
Qed.

(** ** Tiers *)

Lemma is_tier_cases (c : string) :
  is_tier c = true <-> c = "high" \/ c = "medium" \/ c = "low".
Proof.
  unfold is_tier.
  destruct (String.eqb_spec c "high"), (String.eqb_spec c "medium"),
    (String.eqb_spec c "low"); simpl; intuition discriminate.
Qed.

Lemma confidence_levels_Ok (c : string) (n : Z) :
  confidence_levels c = Ok n ->
  is_tier c = true /\ 1 <= n <= 3.
Proof.
  unfold confidence_levels, is_tier.
  destruct (String.eqb c "high"), (String.eqb c "medium"),
    (String.eqb c "low"); simpl; intros [= <-]; split; auto; lia.
Qed.

Lemma confidence_levels_tier (c : string) :
  is_tier c = true -> exists n, confidence_levels c = Ok n.
Proof.
  unfold confidence_levels, is_tier.
  destruct (String.eqb c "high"), (String.eqb c "medium"),
    (String.eqb c "low"); simpl; intros H; try discriminate; eauto.
Qed.

Lemma confidence_levels_inj (c1 c2 : string) (n : Z) :
  confidence_levels c1 = Ok n -> confidence_levels c2 = Ok n -> c1 = c2.
Proof.
  unfold confidence_levels.
  destruct (String.eqb_spec c1 "high"), (String.eqb_spec c1 "medium"),
    (String.eqb_spec c1 "low"), (String.eqb_spec c2 "high"),
    (String.eqb_spec c2 "medium"), (String.eqb_spec c2 "low");
    intros H1 H2; try discriminate; try congruence;
    inversion H1; subst; inversion H2.
Qed.

Lemma level_valid (item : DetectedItem) :
  valid_tier item -> confidence_levels (confidence item) = Ok (level item).
Proof.
  intros H. unfold level.
  destruct (confidence_levels_tier _ H) as [n ->]. reflexivity.
Qed.

Lemma level_of_Ok (item : DetectedItem) (n : Z) :
  confidence_levels (confidence item) = Ok n -> level item = n.
Proof. unfold level. now intros ->. Qed.

(** The table of the code ranks the tiers as the specification does. *)
Lemma level_tier_rank (item : DetectedItem) :
  level item = tier_rank (confidence item).
Proof.
  unfold level, confidence_levels, tier_rank.
  generalize (confidence item). intros c.
  destruct (String.eqb_spec c "high") as [->|]; [reflexivity|].
  destruct (String.eqb_spec c "medium") as [->|]; [reflexivity|].
  destruct (String.eqb_spec c "low") as [->|]; reflexivity.
Qed.

Lemma level_nonneg (item : DetectedItem) : 0 <= level item.
Proof.
  unfold level. destruct (confidence_levels (confidence item)) eqn:E; [|lia].
  apply confidence_levels_Ok in E. lia.
Qed.

Lemma same_level_same_tier (a b : DetectedItem) :
  valid_tier a -> valid_tier b -> level a = level b ->
  confidence a = confidence b.
Proof.
  intros Ha Hb Hl. apply level_valid in Ha, Hb. rewrite Hl in Ha.
  eapply confidence_levels_inj; eauto.
Qed.

Lemma same_identity_refl (a : DetectedItem) : same_identity a a.
Proof. repeat split. Qed.

Lemma same_identity_trans (a b c : DetectedItem) :
  same_identity a b -> same_identity b c -> same_identity a c.
Proof. unfold same_identity. intuition congruence. Qed.

(** ** One merge *)

Section MergeFacts.

Variable lower : string -> string.

Lemma merge_into_inv (rep item rep' : DetectedItem) :
  merge_into rep item = Ok rep' ->
  same_identity rep' rep /\
  quantity rep' = quantity rep + 1 /\
  valid_tier rep /\ valid_tier item /\ valid_tier rep' /\
  level rep' = Z.max (level rep) (level item) /\
  confidence rep' =
    (if level item >? level rep then confidence item else confidence rep).
Proof.
  unfold merge_into. simpl.
  destruct (confidence_levels (confidence rep)) as [cl|] eqn:Ec; simpl;
    [|discriminate].
  destruct (confidence_levels (confidence item)) as [nl|] eqn:En; simpl;
    [|discriminate].
  rewrite (level_of_Ok _ _ Ec), (level_of_Ok _ _ En).
  pose proof (confidence_levels_Ok _ _ Ec) as [Vr _].
  pose proof (confidence_levels_Ok _ _ En) as [Vi _].
  destruct (Z.gtb_spec nl cl) as [Hgt|Hle]; intros [= <-];
    unfold valid_tier, level; simpl; rewrite ?Ec, ?En;
    (repeat split; auto; lia).
Qed.

Lemma merge_into_total (rep item : DetectedItem) :
  valid_tier rep -> valid_tier item ->
  exists rep', merge_into rep item = Ok rep'.
Proof.
  intros Hr Hi. unfold merge_into. simpl.
  rewrite (level_valid _ Hr), (level_valid _ Hi). simpl.
  destruct (level item >? level rep); eauto.
Qed.

Lemma merge_into_key (rep item rep' : DetectedItem) :
  merge_into rep item = Ok rep' -> item_key lower rep' = item_key lower rep.
Proof.
  intros H. apply merge_into_inv in H as [(Hn & Hc & _) _].
  unfold item_key. now rewrite Hn, Hc.
Qed.

(** *** A run of merges *)

Lemma merge_all_inv (dups : list DetectedItem) :
  forall rep rep', merge_all rep dups = Ok rep' ->
    same_identity rep' rep /\
    quantity rep' = quantity rep + Z.of_nat (List.length dups) /\
    Forall valid_tier dups /\
    (dups <> [] -> valid_tier rep) /\
    (valid_tier rep -> valid_tier rep') /\
    level rep' = Z.max (level rep) (max_level dups).
Proof.
  induction dups as [|d dups IH]; intros rep rep'.
  - simpl. intros [= <-]. repeat split; auto using same_identity_refl.
    + lia.
    + congruence.
    + unfold max_level. simpl. pose proof (level_nonneg rep). lia.
  - cbn [merge_all]. destruct (merge_into rep d) as [r1|] eqn:E1; simpl;
      [|discriminate].
    intros H. apply IH in H as (Hid & Hq & Hv & _ & Hvr & Hl).
    apply merge_into_inv in E1 as (Hid1 & Hq1 & Vr & Vd & Vr1 & Hl1 & _).
    split; [eapply same_identity_trans; eauto|].
    split; [rewrite Hq, Hq1; cbn [List.length]; lia|].
    split; [constructor; auto|].
    split; [auto|].
    split; [auto|].
    rewrite Hl, Hl1. unfold max_level. simpl. lia.
Qed.

Lemma merge_all_total (dups : list DetectedItem) :
  forall rep, valid_tier rep -> Forall valid_tier dups ->
    exists rep', merge_all rep dups = Ok rep'.
Proof.
  induction dups as [|d dups IH]; intros rep Hr Hd; simpl; eauto.
  inversion Hd as [|? ? Vd Vds]; subst.
  destruct (merge_into_total rep d Hr Vd) as [r1 E1]. rewrite E1. simpl.
  apply IH; auto.
  now apply merge_into_inv in E1.
Qed.

End MergeFacts.

(** ** First occurrences *)

Lemma existsb_eqb_In (k : string) (seen : list string) :
  existsb (String.eqb k) seen = true <-> In k seen.
Proof.
  rewrite existsb_exists. split.
  - intros (x & Hx & E). apply String.eqb_eq in E. now subst.
  - intros H. exists k. split; auto. apply String.eqb_refl.
Qed.

Lemma first_occurrences_In (ks : list string) :
  forall seen k, In k (first_occurrences seen ks) -> ~ In k seen /\ In k ks.
Proof.
  induction ks as [|k0 ks IH]; intros seen k; simpl; [tauto|].
  destruct (existsb (String.eqb k0) seen) eqn:E.
  - intros H. apply IH in H. tauto.
  - assert (~ In k0 seen) as Hn.
    { rewrite <- existsb_eqb_In. congruence. }
    intros [<-|H]; [tauto|].
    apply IH in H as [H1 H2]. rewrite in_app_iff in H1. simpl in H1. tauto.
Qed.

Lemma first_occurrences_complete (ks : list string) :
  forall seen k, In k ks -> ~ In k seen -> In k (first_occurrences seen ks).
Proof.
  induction ks as [|k0 ks IH]; intros seen k; simpl; [tauto|].
  intros Hin Hn.
  destruct (existsb (String.eqb k0) seen) eqn:E.
  - apply existsb_eqb_In in E. destruct Hin as [<-|Hin]; [tauto|]. auto.
  - destruct (String.eqb_spec k0 k) as [->|Hne]; [now left|].
    right. destruct Hin as [?|Hin]; [congruence|].
    apply IH; auto. rewrite in_app_iff. simpl. intuition congruence.
Qed.

Lemma first_occurrences_sorted (ks : list string) :
  forall seen,
    StronglySorted lt
      (map (fun k => index_of k ks) (first_occurrences seen ks)).
Proof.
  induction ks as [|k0 ks IH]; intros seen; simpl; [constructor|].
  assert (forall seen',
    (forall k, In k (first_occurrences seen' ks) -> k <> k0) ->
    map (fun k => if String.eqb k0 k then O else S (index_of k ks))
        (first_occurrences seen' ks)
    = map S (map (fun k => index_of k ks) (first_occurrences seen' ks)))
    as Hshift.
  { intros seen' Hne. rewrite map_map. apply map_ext_in. intros k Hk.
    destruct (String.eqb_spec k0 k) as [->|]; [now apply Hne in Hk|auto]. }
  assert (forall l, StronglySorted lt l -> StronglySorted lt (map S l))
    as Hmono.
  { induction 1 as [|a l Hs IHs Hf]; simpl; constructor; auto.
    rewrite Forall_map. eapply Forall_impl; [|exact Hf]. simpl. lia. }
  destruct (existsb (String.eqb k0) seen) eqn:E.
  - rewrite Hshift; [auto|].
    intros k Hk ->. apply first_occurrences_In in Hk as [Hk _].
    apply Hk. now apply existsb_eqb_In.
  - simpl. rewrite String.eqb_refl. rewrite Hshift.
    + constructor; auto. rewrite Forall_map, Forall_map.
      apply Forall_forall. intros; lia.
    + intros k Hk ->. apply first_occurrences_In in Hk as [Hk _].
      apply Hk. rewrite in_app_iff. simpl. auto.
Qed.

Lemma first_occurrences_seen_all (ks seen : list string) :
  (forall k, In k ks -> In k seen) -> first_occurrences seen ks = [].
Proof.
  revert seen. induction ks as [|k0 ks IH]; intros seen H; simpl; auto.
  assert (existsb (String.eqb k0) seen = true) as ->.
  { apply existsb_eqb_In, H. now left. }
  apply IH. intros k Hk. apply H. now right.
Qed.

(** ** The loop of [consolidate_items] *)

Section LoopFacts.

Variable lower : string -> string.

Local Abbreviation K := (item_key lower).

Lemma dict_set_Forall (P : string * DetectedItem -> Prop) (m : dict)
  (k : string) (v : DetectedItem) :
  Forall P m -> P (k, v) -> Forall P (dict_set m k v).
Proof.
  intros Hm Hv. induction Hm as [|[k0 v0] m H0 Hm IH]; simpl.
  - constructor; auto.
  - destruct (String.eqb_spec k0 k) as [->|]; constructor; auto.
Qed.

Lemma dict_get_keys_existsb (m : dict) (k : string) :
  existsb (String.eqb k) (dict_keys m) =
  match dict_get m k with Some _ => true | None => false end.
Proof.
  destruct (dict_get m k) eqn:E.
  - apply existsb_eqb_In. apply dict_get_In in E.
    change k with (fst (k, d)). now apply in_map.
  - apply dict_get_None in E.
    destruct (existsb (String.eqb k) (dict_keys m)) eqn:E'; auto.
    apply existsb_eqb_In in E'. tauto.
Qed.

(** What one iteration does to the dictionary. *)
Lemma consolidate_step_inv (m m' : dict) (item : DetectedItem) :
  consolidate_step lower m item = Ok m' ->
  (forall k, k <> K item -> dict_get m' k = dict_get m k) /\
  match dict_get m (K item) with
  | Some rep =>
      exists rep', merge_into rep item = Ok rep' /\
                   dict_get m' (K item) = Some rep' /\
                   m' = dict_set m (K item) rep' /\
                   dict_keys m' = dict_keys m
  | None => dict_get m' (K item) = Some item /\ m' = m ++ [(K item, item)]
  end.
Proof.
  unfold consolidate_step.
  destruct (dict_get m (K item)) as [rep|] eqn:E.
  - destruct (merge_into rep item) as [rep'|] eqn:Em; simpl; [|discriminate].
    intros [= <-]. split.
    + intros k Hk. apply dict_get_set_other. congruence.
    + exists rep'. split; [reflexivity|].
      split; [apply dict_get_set_same|]. split; [reflexivity|].
      exact (dict_set_present m (K item) rep' rep E).
  - intros [= <-]. split.
    + intros k Hk. apply dict_get_set_other. congruence.
    + split; [apply dict_get_set_same | now apply dict_set_absent].
Qed.

Lemma consolidate_step_ok (m m' : dict) (item : DetectedItem) :
  dict_ok lower m -> consolidate_step lower m item = Ok m' ->
  dict_ok lower m'.
Proof.
  intros [Hnd Hk] H. pose proof (consolidate_step_inv _ _ _ H) as [_ Hs].
  destruct (dict_get m (K item)) as [rep|] eqn:E.
  - destruct Hs as (rep' & Em & _ & -> & Hkeys). split.
    + now rewrite Hkeys.
    + apply dict_set_Forall; auto. simpl.
      rewrite (merge_into_key lower _ _ _ Em).
      apply dict_get_In in E. rewrite Forall_forall in Hk.
      apply (Hk _ E).
  - destruct Hs as [_ ->]. split.
    + unfold dict_keys. rewrite map_app. simpl.
      apply NoDup_app; auto.
      * repeat constructor. simpl. tauto.
      * intros k Hin [<-|[]]. apply dict_get_None in E. auto.
    + apply Forall_app. split; auto.
Qed.

Lemma consolidate_loop_ok (items : list DetectedItem) :
  forall m m', dict_ok lower m -> consolidate_loop lower items m = Ok m' ->
    dict_ok lower m'.
Proof.
  induction items as [|item items IH]; intros m m' Hm; simpl.
  - now intros [= <-].
  - destruct (consolidate_step lower m item) as [m1|] eqn:E; simpl;
      [|discriminate].
    apply IH. eapply consolidate_step_ok; eauto.
Qed.

(** The dictionary after the loop: its keys are the old keys followed
    by the new ones in order of first appearance, and the value of a
    key is the fold of [merge_into] over the items of that key. *)
Lemma consolidate_loop_inv (items : list DetectedItem) :
  forall m m', consolidate_loop lower items m = Ok m' ->
    dict_keys m' =
      dict_keys m ++ first_occurrences (dict_keys m) (map K items) /\
    forall k,
      match dict_get m k with
      | Some rep =>
          exists rep', merge_all rep (filter (keyed lower k) items) = Ok rep'
                       /\ dict_get m' k = Some rep'
      | None =>
          match filter (keyed lower k) items with
          | [] => dict_get m' k = None
          | f :: dups =>
              exists rep', merge_all f dups = Ok rep'
                           /\ dict_get m' k = Some rep'
          end
      end.
Proof.
  induction items as [|item items IH]; intros m m'; simpl.
  - intros [= <-]. split; [now rewrite app_nil_r|].
    intros k. destruct (dict_get m k); eauto.
  - destruct (consolidate_step lower m item) as [m1|] eqn:E; simpl;
      [|discriminate].
    intros H. apply IH in H as [Hkeys Hget].
    apply consolidate_step_inv in E as [Hother Hsame].
    rewrite dict_get_keys_existsb. split.
    + destruct (dict_get m (K item)) as [rep|].
      * destruct Hsame as (rep' & _ & _ & _ & Hk). now rewrite Hk in Hkeys.
      * destruct Hsame as [_ ->]. rewrite Hkeys. unfold dict_keys.
        rewrite map_app, <- app_assoc. reflexivity.
    + intros k. specialize (Hget k).
      destruct (keyed lower k item) eqn:Ek; unfold keyed in Ek.
      * apply String.eqb_eq in Ek. subst k.
        destruct (dict_get m (K item)) as [rep|].
        -- destruct Hsame as (rep1 & Em & Hg1 & _). rewrite Hg1 in Hget.
           destruct Hget as (rep' & Hm & Hg). exists rep'. split; auto.
           simpl. now rewrite Em.
        -- destruct Hsame as [Hg1 _]. rewrite Hg1 in Hget. exact Hget.
      * apply String.eqb_neq in Ek.
        assert (k <> K item) as Hne' by congruence.
        rewrite (Hother k Hne') in Hget. exact Hget.
Qed.

Lemma dict_set_values_Forall (P : DetectedItem -> Prop) (m : dict)
  (k : string) (v : DetectedItem) :
  Forall P (dict_values m) -> P v -> Forall P (dict_values (dict_set m k v)).
Proof.
  unfold dict_values. rewrite !Forall_map. intros Hm Hv.
  apply dict_set_Forall; auto.
Qed.

(** With tiers only, no lookup in [confidence_levels] fails. *)
Lemma consolidate_loop_total (items : list DetectedItem) :
  forall m, Forall valid_tier (dict_values m) -> Forall valid_tier items ->
    exists m', consolidate_loop lower items m = Ok m' /\
               Forall valid_tier (dict_values m').
Proof.
  induction items as [|item items IH]; intros m Hm Hi; simpl; eauto.
  inversion Hi as [|? ? Vi Vis]; subst.
  assert (exists m1, consolidate_step lower m item = Ok m1 /\
                     Forall valid_tier (dict_values m1)) as (m1 & E & V1).
  { unfold consolidate_step. destruct (dict_get m (K item)) as [rep|] eqn:Eg.
    - assert (valid_tier rep) as Vr.
      { apply dict_get_In in Eg. rewrite Forall_forall in Hm. apply Hm.
        change rep with (snd (K item, rep)). now apply in_map. }
      destruct (merge_into_total rep item Vr Vi) as [rep' Em].
      rewrite Em. simpl. eexists; split; eauto.
      apply dict_set_values_Forall; auto.
      now apply merge_into_inv in Em.
    - eexists; split; eauto. apply dict_set_values_Forall; auto. }
  rewrite E. simpl. apply IH; auto.
Qed.

Lemma dict_get_app_None (m1 m2 : dict) (k : string) :
  dict_get m1 k = None -> dict_get (m1 ++ m2) k = dict_get m2 k.
Proof.
  induction m1 as [|[k0 v0] m1 IH]; simpl; auto.
  destruct (String.eqb k0 k); [discriminate|auto].
Qed.

(** Items with pairwise different dictionary keys are stored as they
    are, in order. *)
Lemma consolidate_loop_distinct (items : list DetectedItem) :
  forall m, NoDup (map K items) ->
    (forall item, In item items -> dict_get m (K item) = None) ->
    consolidate_loop lower items m
    = Ok (m ++ map (fun item => (K item, item)) items).
Proof.
  induction items as [|item items IH]; intros m Hnd Hnew; simpl.
  - now rewrite app_nil_r.
  - inversion Hnd as [|? ? Hnotin Hnd']; subst.
    unfold consolidate_step. rewrite (Hnew item) by now left. simpl.
    rewrite dict_set_absent by (apply Hnew; now left).
    rewrite IH; auto.
    + now rewrite <- app_assoc.
    + intros it Hit. rewrite dict_get_app_None by (apply Hnew; now right).
      simpl. destruct (String.eqb_spec (K item) (K it)) as [Heq|]; auto.
      exfalso. apply Hnotin. rewrite Heq. now apply in_map.
Qed.

End LoopFacts.

(** ** The output of [consolidate_items] *)

Section OutputFacts.

Variable lower : string -> string.

Local Abbreviation K := (item_key lower).
Local Abbreviation ckey := (consolidation_key lower).

Lemma consolidation_key_item_key (a b : DetectedItem) :
  ckey a = ckey b -> K a = K b.
Proof.
  unfold consolidation_key, item_key. intros [= Hn Hc]. now rewrite Hn, Hc.
Qed.

Lemma same_identity_keys (a b : DetectedItem) :
  same_identity a b -> ckey a = ckey b /\ K a = K b.
Proof.
  intros (Hn & Hc & _). unfold consolidation_key, item_key.
  now rewrite Hn, Hc.
Qed.

Lemma has_key_true (k : string * string) (item : DetectedItem) :
  has_key lower k item = true <-> ckey item = k.
Proof.
  unfold has_key, key_eqb. rewrite andb_true_iff, !String.eqb_eq.
  destruct (ckey item), k; simpl. split; [intros [-> ->]|intros [= -> ->]]; auto.
Qed.

Lemma has_key_false (k : string * string) (item : DetectedItem) :
  has_key lower k item = false <-> ckey item <> k.
Proof.
  rewrite <- has_key_true. destruct (has_key lower k item); intuition congruence.
Qed.

Lemma keyed_true (k : string) (item : DetectedItem) :
  keyed lower k item = true <-> K item = k.
Proof. apply String.eqb_eq. Qed.

Lemma filter_all {A : Type} (p : A -> bool) (l : list A) :
  Forall (fun x => p x = true) l -> filter p l = l.
Proof.
  induction 1 as [|x l Hx _ IH]; simpl; auto. now rewrite Hx, IH.
Qed.

Lemma filter_head_In {A : Type} (p : A -> bool) (l : list A) (x : A)
  (xs : list A) :
  filter p l = x :: xs -> In x l /\ p x = true.
Proof.
  intros H. apply filter_In. rewrite H. now left.
Qed.

Lemma dict_ok_values (m : dict) :
  dict_ok lower m -> map K (dict_values m) = dict_keys m.
Proof.
  intros [_ H]. unfold dict_values, dict_keys. rewrite map_map.
  apply map_ext_in. intros kv Hkv. rewrite Forall_forall in H. auto.
Qed.

Lemma dict_ok_nil : dict_ok lower [].
Proof. split; constructor. Qed.

Lemma consolidate_items_total (items : list DetectedItem) :
  Forall valid_tier items ->
  exists out, consolidate_items lower items = Ok out.
Proof.
  intros H. unfold consolidate_items.
  destruct (consolidate_loop_total lower items [] (Forall_nil _) H)
    as (m & -> & _).
  simpl. eauto.
Qed.

(** The output, read off the final dictionary: the representatives come
    in order of first appearance of their dictionary key, and each is
    the first item of its key with the later ones merged into it. *)
Lemma consolidate_items_inv (items out : list DetectedItem) :
  consolidate_items lower items = Ok out ->
  map K out = first_occurrences [] (map K items) /\
  NoDup (map K out) /\
  Forall (fun rep => exists f dups,
            filter (keyed lower (K rep)) items = f :: dups /\
            merge_all f dups = Ok rep) out.
Proof.
  unfold consolidate_items.
  destruct (consolidate_loop lower items []) as [m|] eqn:E; simpl;
    [|discriminate].
  intros [= <-].
  pose proof (consolidate_loop_ok lower _ _ _ (dict_ok_nil) E) as Hok.
  pose proof (consolidate_loop_inv lower _ _ _ E) as [Hkeys Hget].
  simpl in Hkeys. rewrite (dict_ok_values _ Hok).
  split; [exact Hkeys|]. split; [apply Hok|].
  apply Forall_forall. intros rep Hrep.
  unfold dict_values in Hrep. apply in_map_iff in Hrep as ([k r] & <- & Hin).
  simpl. destruct Hok as [Hnd Hk]. rewrite Forall_forall in Hk.
  pose proof (Hk _ Hin) as Hkr. simpl in Hkr. rewrite Hkr.
  apply dict_In_get in Hin; auto.
  specialize (Hget k). simpl in Hget.
  destruct (filter (keyed lower k) items) as [|f dups]; [congruence|].
  destruct Hget as (rep' & Hm & Hg). exists f, dups. split; congruence.
Qed.

(** The first item of a dictionary key is also the first item of its
    consolidation key, at the same position. *)
Lemma first_of_key (items : list DetectedItem) :
  forall k f dups,
    filter (keyed lower k) items = f :: dups ->
    first_with_key lower (ckey f) items = Some f /\
    first_index lower (ckey f) items = index_of k (map K items).
Proof.
  unfold first_with_key.
  induction items as [|x items IH]; intros k f dups; simpl; [discriminate|].
  destruct (keyed lower k x) eqn:Ex.
  - intros [= <- _]. apply keyed_true in Ex.
    assert (has_key lower (ckey x) x = true) as -> by now apply has_key_true.
    apply String.eqb_eq in Ex. now rewrite Ex.
  - intros H. pose proof (filter_head_In _ _ _ _ H) as [_ Hf].
    apply keyed_true in Hf.
    assert (K x <> k) as Hne by (apply String.eqb_neq; exact Ex).
    assert (has_key lower (ckey f) x = false) as ->.
    { apply has_key_false. intros Hc. apply consolidation_key_item_key in Hc.
      congruence. }
    apply String.eqb_neq in Hne. rewrite Hne.
    destruct (IH _ _ _ H) as [-> ->]. auto.
Qed.

Lemma consolidate_single_key (f : DetectedItem) (dups : list DetectedItem) :
  Forall (fun item => K item = K f) dups ->
  Forall valid_tier (f :: dups) ->
  exists rep, consolidate_items lower (f :: dups) = Ok [rep] /\
              merge_all f dups = Ok rep.
Proof.
  intros Hk Hv.
  destruct (consolidate_items_total _ Hv) as [out E].
  pose proof (consolidate_items_inv _ _ E) as (Hkeys & _ & Hreps).
  simpl in Hkeys. rewrite first_occurrences_seen_all in Hkeys.
  2:{ intros k Hin. apply in_map_iff in Hin as (x & <- & Hx).
      rewrite Forall_forall in Hk. rewrite (Hk _ Hx). now left. }
  destruct out as [|rep [|? ?]]; try discriminate.
  injection Hkeys as Hkr.
  inversion Hreps as [|? ? (f' & dups' & Hf & Hm) _]; subst.
  rewrite Hkr in Hf. simpl in Hf.
  assert (keyed lower (K f) f = true) as Ef by now apply keyed_true.
  rewrite Ef, filter_all in Hf.
  2:{ eapply Forall_impl; [|exact Hk]. intros a Ha. now apply keyed_true. }
  injection Hf as <- <-. eauto.
Qed.

Lemma consolidate_distinct (items : list DetectedItem) :
  NoDup (map K items) -> consolidate_items lower items = Ok items.
Proof.
  intros H. unfold consolidate_items.
  rewrite consolidate_loop_distinct; auto. simpl.
  unfold dict_values. rewrite map_map. simpl. now rewrite map_id.
Qed.

Lemma max_level_perm (l l' : list DetectedItem) :
  Permutation l l' -> max_level l = max_level l'.
Proof.
  unfold max_level.
  induction 1; simpl; try lia.
Qed.

Lemma max_level_attained (l : list DetectedItem) :
  l <> [] -> exists top, In top l /\ level top = max_level l /\
                         Forall (fun item => level item <= level top) l.
Proof.
  induction l as [|a l IH]; [congruence|]. intros _.
  destruct l as [|b l].
  - exists a. unfold max_level. simpl. pose proof (level_nonneg a).
    repeat split; auto; [lia|]. constructor; [lia|constructor].
  - destruct IH as (top & Hin & Hl & Hall); [discriminate|].
    change (max_level (a :: b :: l)) with (Z.max (level a) (max_level (b :: l))).
    destruct (Z.le_gt_cases (level a) (level top)).
    + exists top. split; [now right|]. split; [lia|]. constructor; auto.
    + exists a. split; [now left|]. split; [lia|]. constructor; [lia|].
      eapply Forall_impl; [|exact Hall]. simpl. intros; lia.
Qed.

End OutputFacts.

(** ** Consolidation: the specified behaviour *)

Lemma index_of_lt (k : string) (ks : list string) :
  In k ks -> (index_of k ks < List.length ks)%nat.
Proof.
  induction ks as [|k0 ks IH]; simpl; [tauto|].
  destruct (String.eqb_spec k0 k); [lia|].
  intros [?|H]; [congruence|]. apply IH in H. lia.
Qed.

Lemma NoDup_map_compose {A B C : Type} (f : A -> B) (g : B -> C) (l : list A) :
  NoDup (map (fun x => g (f x)) l) -> NoDup (map f l).
Proof.
  rewrite <- (map_map f g). apply NoDup_map_inv.
Qed.

Lemma NoDup_map_on {A B C : Type} (f : A -> B) (g : A -> C) (l : list A) :
  (forall a b, In a l -> In b l -> g a = g b -> f a = f b) ->
  NoDup (map f l) -> NoDup (map g l).
Proof.
  induction l as [|x l IH]; simpl; intros Hfg Hnd; [constructor|].
  inversion Hnd as [|? ? Hnotin Hnd']; subst. constructor.
  - intros Hin. apply in_map_iff in Hin as (y & Hy & Hyl).
    apply Hnotin. rewrite <- (Hfg y x); auto. now apply in_map.
  - apply IH; auto.
Qed.

(** C1. N >= 1 items of quantity 1 that all have the same consolidation key
    [(lowercase(name), category)] are consolidated into exactly one item;
    its quantity is N and its tier is the tier of an input item that no
    input item outranks under [low(1) < medium(2) < high(3)]. *)
Theorem same_key_items_become_one (lower : string -> string)
  (items : list DetectedItem) (k : string * string) :
  items <> [] ->
  Forall (fun item => quantity item = 1) items ->
  Forall (fun item => consolidation_key lower item = k) items ->
  Forall valid_tier items ->
  exists rep top,
    consolidate_items lower items = Ok [rep] /\
    quantity rep = Z.of_nat (List.length items) /\
    In top items /\
    Forall (fun item =>
              tier_rank (confidence item) <= tier_rank (confidence top))
      items /\
    confidence rep = confidence top.
Proof.
  intros Hne Hq Hk Hv. destruct items as [|f dups]; [congruence|].
  inversion Hk as [|? ? Hkf Hkd]; subst.
  inversion Hq as [|? ? Hqf _]; subst.
  destruct (consolidate_single_key lower f dups) as (rep & E & Hm); auto.
  { eapply Forall_impl; [|exact Hkd]. intros a Ha.
    now apply consolidation_key_item_key. }
  apply (merge_all_inv) in Hm as (_ & Hqr & _ & _ & Hvr & Hl).
  destruct (max_level_attained (f :: dups)) as (top & Hin & Hlt & Hall);
    [discriminate|].
  exists rep, top. split; [exact E|]. split.
  { rewrite Hqr, Hqf. cbn [List.length]. lia. }
  split; [exact Hin|]. split.
  { eapply Forall_impl; [|exact Hall]. intros a Ha. cbv beta in Ha.
    now rewrite <- !level_tier_rank. }
  inversion Hv as [|? ? Vf Vd]; subst.
  apply same_level_same_tier; auto.
  - rewrite Forall_forall in Hv. auto.
  - rewrite Hl, Hlt. reflexivity.
Qed.

Lemma same_key_items_become_one_witness :
  exists rep top,
    consolidate_items ascii_lower three_laptops = Ok [rep] /\
    quantity rep = Z.of_nat (List.length three_laptops) /\
    In top three_laptops /\
    Forall (fun item =>
              tier_rank (confidence item) <= tier_rank (confidence top))
      three_laptops /\
    confidence rep = confidence top.
Proof.
  apply (same_key_items_become_one ascii_lower three_laptops
           ("laptop", "electronics")).
  - discriminate.
  - repeat constructor.
  - repeat constructor.
  - repeat constructor.
Defined.

(** C2, at the input where it fails: two items whose pairs
    [(lowercase(name), category)] differ are given the same dictionary key
    ["t-shirt-x"], so the second is merged into the first instead of being
    returned unchanged. *)
Example distinct_pairs_are_merged :
  consolidation_key ascii_lower
    (mkItem "T-Shirt" "first" "x" 1 "good" "high" true "p1")
  <> consolidation_key ascii_lower
    (mkItem "T" "second" "shirt-x" 1 "good" "high" true "p2")
  /\ consolidate_items ascii_lower
       [mkItem "T-Shirt" "first" "x" 1 "good" "high" true "p1";
        mkItem "T" "second" "shirt-x" 1 "good" "high" true "p2"]
     = Ok [mkItem "T-Shirt" "first" "x" 2 "good" "high" true "p1"].
Proof. split; [discriminate | reflexivity]. Qed.

(** Where [item_key] separates the consolidation keys of the list, items
    with pairwise different consolidation keys come back unchanged and in
    order; the tiers play no role, as nothing is merged. *)
Lemma distinct_keys_unchanged (lower : string -> string)
  (items : list DetectedItem) :
  collision_free lower items ->
  NoDup (map (consolidation_key lower) items) ->
  consolidate_items lower items = Ok items.
Proof.
  intros Hcf Hnd. apply consolidate_distinct.
  eapply NoDup_map_on; [|exact Hnd]. exact Hcf.
Qed.

(** A confidence that is no tier is only looked up when its item takes
    part in a merge; the lookup then raises. *)
Example unknown_tier_raises :
  consolidate_items ascii_lower
    [laptop 1 "certain" "p1"; laptop 1 "high" "p2"]
  = Raise (KeyError "certain") /\
  consolidate_items ascii_lower [laptop 1 "certain" "p1"]
  = Ok [laptop 1 "certain" "p1"].
Proof. split; reflexivity. Qed.

Example consolidate_empty (lower : string -> string) :
  consolidate_items lower [] = Ok [].
Proof. reflexivity. Qed.

Example consolidate_single (lower : string -> string) (item : DetectedItem) :
  consolidate_items lower [item] = Ok [item].
Proof. reflexivity. Qed.

(** C3, as stated, fails: the representative keeps the quantity of the
    first occurrence, so two laptops of which the first carries quantity 5
    give quantity 6, not the 2 occurrences. *)
Lemma quantity_is_not_the_occurrence_count :
  consolidate_items ascii_lower
    [laptop 5 "high" "p1"; laptop 1 "high" "p2"]
  = Ok [laptop 6 "high" "p1"] /\
  count_key ascii_lower (consolidation_key ascii_lower (laptop 6 "high" "p1"))
    [laptop 5 "high" "p1"; laptop 1 "high" "p2"] = 2%nat /\
  quantity (laptop 6 "high" "p1") <> 2.
Proof. repeat split. discriminate. Qed.

(** C3, amended. Where [item_key] separates the consolidation keys of the
    input, every input key has a representative in the output, and the
    quantity of a representative is the quantity of the first item of its
    key plus one for each later item of that key: the number of
    occurrences when the first one has quantity 1; the quantities of the
    later items are not read. *)
Theorem quantity_counts_later_occurrences (lower : string -> string)
  (items : list DetectedItem) :
  collision_free lower items ->
  Forall valid_tier items ->
  exists out,
    consolidate_items lower items = Ok out /\
    (forall item, In item items ->
       exists rep, In rep out /\
                   consolidation_key lower rep = consolidation_key lower item) /\
    Forall (fun rep =>
      exists first,
        first_with_key lower (consolidation_key lower rep) items = Some first /\
        quantity rep =
          quantity first
          + Z.of_nat (count_key lower (consolidation_key lower rep) items) - 1)
      out.
Proof.
  intros Hcf Hv. destruct (consolidate_items_total lower _ Hv) as [out E].
  exists out. split; [exact E|].
  pose proof (consolidate_items_inv lower _ _ E) as (Hkeys & _ & Hreps).
  rewrite Forall_forall in Hreps.
  assert (forall rep, In rep out ->
    exists f dups, filter (keyed lower (item_key lower rep)) items = f :: dups /\
      In f items /\ same_identity rep f /\
      quantity rep = quantity f + Z.of_nat (List.length dups)) as Horigin.
  { intros rep Hrep. destruct (Hreps _ Hrep) as (f & dups & Hf & Hm).
    exists f, dups. apply merge_all_inv in Hm as (Hid & Hq & _).
    pose proof (filter_head_In _ _ _ _ Hf) as [Hin _]. auto. }
  split.
  - intros item Hin.
    assert (In (item_key lower item) (map (item_key lower) out)) as Hk.
    { rewrite Hkeys. apply first_occurrences_complete; [|tauto].
      now apply in_map. }
    apply in_map_iff in Hk as (rep & Hkr & Hrep). exists rep. split; auto.
    destruct (Horigin _ Hrep) as (f & dups & Hf & Hfin & Hid & _).
    apply (same_identity_keys lower) in Hid as [Hc Hkf].
    rewrite Hc. apply Hcf; auto. congruence.
  - apply Forall_forall. intros rep Hrep.
    destruct (Horigin _ Hrep) as (f & dups & Hf & Hfin & Hid & Hq).
    apply (same_identity_keys lower) in Hid as [Hc Hkf].
    exists f. rewrite Hc. split; [eapply first_of_key; eauto|].
    unfold count_key.
    rewrite (filter_ext_in (has_key lower (consolidation_key lower f))
               (keyed lower (item_key lower rep))).
    + rewrite Hf, Hq. cbn [List.length]. lia.
    + intros a Ha.
      destruct (keyed lower (item_key lower rep) a) eqn:Ek.
      * apply has_key_true. apply keyed_true in Ek. apply Hcf; auto.
        congruence.
      * apply has_key_false. intros Hca.
        apply consolidation_key_item_key in Hca.
        apply String.eqb_neq in Ek. congruence.
Qed.

Lemma quantity_counts_later_occurrences_witness :
  exists out,
    consolidate_items ascii_lower (laptop 5 "low" "p1" :: three_laptops)
    = Ok out /\
    (forall item, In item (laptop 5 "low" "p1" :: three_laptops) ->
       exists rep, In rep out /\
         consolidation_key ascii_lower rep = consolidation_key ascii_lower item) /\
    Forall (fun rep =>
      exists first,
        first_with_key ascii_lower (consolidation_key ascii_lower rep)
          (laptop 5 "low" "p1" :: three_laptops) = Some first /\
        quantity rep =
          quantity first
          + Z.of_nat (count_key ascii_lower (consolidation_key ascii_lower rep)
                        (laptop 5 "low" "p1" :: three_laptops)) - 1)
      out.
Proof.
  apply (quantity_counts_later_occurrences ascii_lower
           (laptop 5 "low" "p1" :: three_laptops)).
  - intros a b Ha Hb _. simpl in Ha, Hb.
    repeat (destruct Ha as [<-|Ha]; [|try contradiction]);
      repeat (destruct Hb as [<-|Hb]; [|try contradiction]); reflexivity.
  - repeat constructor.
Defined.

(** C6, as stated, fails: with quantities 2 and 1 under one key, the two
    orders give quantities 3 and 2. *)
Lemma merged_quantity_depends_on_order :
  Permutation [laptop 2 "high" "p1"; laptop 1 "high" "p2"]
              [laptop 1 "high" "p2"; laptop 2 "high" "p1"] /\
  consolidate_items ascii_lower [laptop 2 "high" "p1"; laptop 1 "high" "p2"]
  = Ok [laptop 3 "high" "p1"] /\
  consolidate_items ascii_lower [laptop 1 "high" "p2"; laptop 2 "high" "p1"]
  = Ok [laptop 2 "high" "p2"] /\
  quantity (laptop 3 "high" "p1") <> quantity (laptop 2 "high" "p2").
Proof.
  split; [apply perm_swap|]. repeat split. discriminate.
Qed.

(** C6, amended. For items that all have one consolidation key, every
    reordering is consolidated to at most one item with the same tier; the
    merged quantity is the same too when the items all carry the same
    quantity, as the items of the item builder do. *)
Theorem single_key_merge_order_independent (lower : string -> string)
  (items items' : list DetectedItem) (k : string * string) :
  Permutation items items' ->
  Forall (fun item => consolidation_key lower item = k) items ->
  Forall valid_tier items ->
  exists out out',
    consolidate_items lower items = Ok out /\
    consolidate_items lower items' = Ok out' /\
    (List.length out <= 1)%nat /\
    map confidence out = map confidence out' /\
    (forall q, Forall (fun item => quantity item = q) items ->
               map quantity out = map quantity out').
Proof.
  intros Hp Hk Hv.
  assert (Forall (fun item => consolidation_key lower item = k) items') as Hk'
    by (eapply Permutation_Forall; eauto).
  assert (Forall valid_tier items') as Hv'
    by (eapply Permutation_Forall; eauto).
  destruct items as [|f dups].
  { apply Permutation_nil in Hp. subst. exists [], []. simpl. auto. }
  destruct items' as [|f' dups'].
  { apply Permutation_sym, Permutation_nil in Hp. discriminate. }
  assert (forall g ds, Forall (fun item => consolidation_key lower item = k)
                         (g :: ds) ->
            Forall (fun item => item_key lower item = item_key lower g) ds)
    as Hsame.
  { intros g ds H. inversion H as [|? ? Hg Hds]; subst.
    eapply Forall_impl; [|exact Hds]. intros a Ha.
    now apply consolidation_key_item_key. }
  destruct (consolidate_single_key lower f dups) as (rep & E & Hm); auto.
  destruct (consolidate_single_key lower f' dups') as (rep' & E' & Hm'); auto.
  apply merge_all_inv in Hm as (_ & Hq & _ & _ & Vr & Hl).
  apply merge_all_inv in Hm' as (_ & Hq' & _ & _ & Vr' & Hl').
  exists [rep], [rep']. split; [exact E|]. split; [exact E'|].
  split; [simpl; lia|]. split.
  - simpl. f_equal. inversion Hv; inversion Hv'; subst.
    apply same_level_same_tier; auto.
    rewrite Hl, Hl'. apply (max_level_perm _ _ Hp).
  - intros q Hall. simpl. f_equal.
    assert (Forall (fun item => quantity item = q) (f' :: dups')) as Hall'
      by (eapply Permutation_Forall; eauto).
    inversion Hall; inversion Hall'; subst.
    apply Permutation_length in Hp. simpl in Hp. lia.
Qed.

Lemma single_key_merge_order_independent_witness :
  exists out out',
    consolidate_items ascii_lower three_laptops = Ok out /\
    consolidate_items ascii_lower (rev three_laptops) = Ok out' /\
    (List.length out <= 1)%nat /\
    map confidence out = map confidence out' /\
    (forall q, Forall (fun item => quantity item = q) three_laptops ->
               map quantity out = map quantity out').
Proof.
  apply (single_key_merge_order_independent ascii_lower three_laptops
           (rev three_laptops) ("laptop", "electronics")).
  - apply Permutation_rev.
  - repeat constructor.
  - repeat constructor.
Defined.

(** C7. The output lists the representatives in the order in which their
    keys first appear in the input: the dictionary keys of the output are
    the dictionary keys of the input in order of first appearance, and the
    positions at which the consolidation keys of the representatives first
    appear in the input are strictly increasing along the output. *)
Theorem output_in_first_occurrence_order (lower : string -> string)
  (items : list DetectedItem) :
  Forall valid_tier items ->
  exists out,
    consolidate_items lower items = Ok out /\
    map (item_key lower) out
    = first_occurrences [] (map (item_key lower) items) /\
    Forall (fun rep =>
      (first_index lower (consolidation_key lower rep) items
       < List.length items)%nat) out /\
    StronglySorted lt
      (map (fun rep => first_index lower (consolidation_key lower rep) items)
           out).
Proof.
  intros Hv. destruct (consolidate_items_total lower _ Hv) as [out E].
  exists out. split; [exact E|].
  pose proof (consolidate_items_inv lower _ _ E) as (Hkeys & _ & Hreps).
  split; [exact Hkeys|].
  assert (forall rep, In rep out ->
    first_index lower (consolidation_key lower rep) items
    = index_of (item_key lower rep) (map (item_key lower) items) /\
    In (item_key lower rep) (map (item_key lower) items)) as Hidx.
  { intros rep Hrep. rewrite Forall_forall in Hreps.
    destruct (Hreps _ Hrep) as (f & dups & Hf & Hm).
    apply merge_all_inv in Hm as (Hid & _).
    apply (same_identity_keys lower) in Hid as [Hc Hk].
    rewrite Hc. split; [eapply first_of_key; eauto|].
    rewrite Hk. apply in_map. eapply filter_head_In; eauto. }
  split.
  - apply Forall_forall. intros rep Hrep.
    destruct (Hidx _ Hrep) as [-> Hin].
    apply index_of_lt in Hin. now rewrite length_map in Hin.
  - rewrite (map_ext_in _
      (fun rep => index_of (item_key lower rep) (map (item_key lower) items))).
    2:{ intros rep Hrep. now apply Hidx. }
    rewrite <- (map_map (item_key lower)
                  (fun k => index_of k (map (item_key lower) items))).
    rewrite Hkeys. apply first_occurrences_sorted.
Qed.

Lemma output_in_first_occurrence_order_witness :
  exists out,
    consolidate_items ascii_lower mixed_items = Ok out /\
    map (item_key ascii_lower) out
    = first_occurrences [] (map (item_key ascii_lower) mixed_items) /\
    Forall (fun rep =>
      (first_index ascii_lower (consolidation_key ascii_lower rep) mixed_items
       < List.length mixed_items)%nat) out /\
    StronglySorted lt
      (map (fun rep =>
              first_index ascii_lower (consolidation_key ascii_lower rep)
                mixed_items) out).
Proof.
  apply (output_in_first_occurrence_order ascii_lower mixed_items).
  repeat constructor.
Defined.

(** C9. Every representative in the output has the name, category,
    description, condition, ai_generated flag and source photo of the first
    input item with its consolidation key: merges change its quantity and
    tier only. *)
Theorem merge_keeps_first_occurrence_fields (lower : string -> string)
  (items : list DetectedItem) :
  Forall valid_tier items ->
  exists out,
    consolidate_items lower items = Ok out /\
    Forall (fun rep =>
      exists first,
        first_with_key lower (consolidation_key lower rep) items = Some first /\
        name rep = name first /\ category rep = category first /\
        description rep = description first /\
        condition rep = condition first /\
        aiGenerated rep = aiGenerated first /\
        sourcePhoto rep = sourcePhoto first) out.
Proof.
  intros Hv. destruct (consolidate_items_total lower _ Hv) as [out E].
  exists out. split; [exact E|].
  pose proof (consolidate_items_inv lower _ _ E) as (_ & _ & Hreps).
  eapply Forall_impl; [|exact Hreps]. intros rep (f & dups & Hf & Hm).
  apply merge_all_inv in Hm as (Hid & _).
  exists f. split; [|exact Hid].
  apply (same_identity_keys lower) in Hid as [-> _].
  eapply first_of_key; eauto.
Qed.

Lemma merge_keeps_first_occurrence_fields_witness :
  exists out,
    consolidate_items ascii_lower mixed_items = Ok out /\
    Forall (fun rep =>
      exists first,
        first_with_key ascii_lower (consolidation_key ascii_lower rep)
          mixed_items = Some first /\
        name rep = name first /\ category rep = category first /\
        description rep = description first /\
        condition rep = condition first /\
        aiGenerated rep = aiGenerated first /\
        sourcePhoto rep = sourcePhoto first) out.
Proof.
  apply (merge_keeps_first_occurrence_fields ascii_lower mixed_items).
  repeat constructor.
Defined.

(** C10. Consolidation is idempotent: whenever it returns, the keys of its
    output are pairwise different and consolidating the output returns the
    output itself; and it does return on items whose confidence is a
    tier. *)
Theorem consolidate_idempotent (lower : string -> string)
  (items : list DetectedItem) :
  (Forall valid_tier items ->
   exists out, consolidate_items lower items = Ok out) /\
  (forall out, consolidate_items lower items = Ok out ->
     NoDup (map (consolidation_key lower) out) /\
     consolidate_items lower out = Ok out).
Proof.
  split; [apply consolidate_items_total|].
  intros out E.
  pose proof (consolidate_items_inv lower _ _ E) as (_ & Hnd & _).
  split; [|now apply consolidate_distinct].
  apply (NoDup_map_compose (consolidation_key lower)
           (fun k => (fst k ++ "-" ++ snd k)%string)).
  exact Hnd.
Qed.

Lemma consolidate_idempotent_witness :
  exists out,
    consolidate_items ascii_lower mixed_items = Ok out /\
    NoDup (map (consolidation_key ascii_lower) out) /\
    consolidate_items ascii_lower out = Ok out.
Proof.
  destruct (consolidate_idempotent ascii_lower mixed_items) as [Htotal Hidem].
  destruct Htotal as [out E]; [repeat constructor|].
  exists out. split; [exact E|]. apply Hidem. exact E.
Defined.

(** Along a whole run of the loop the tier of a representative never
    goes down. *)
Lemma tier_monotone_along_loop (lower : string -> string)
  (items : list DetectedItem) (m m' : dict) (k : string) (rep : DetectedItem) :
  consolidate_loop lower items m = Ok m' ->
  dict_get m k = Some rep ->
  exists rep', dict_get m' k = Some rep' /\ level rep <= level rep'.
Proof.
  intros E Hg. apply consolidate_loop_inv in E as [_ Hget].
  specialize (Hget k). rewrite Hg in Hget.
  destruct Hget as (rep' & Hm & Hg'). exists rep'. split; auto.
  apply merge_all_inv in Hm as (_ & _ & _ & _ & _ & Hl). lia.
Qed.

(** C8. One iteration of the loop, on a dictionary and an item whose
    confidences are tiers, returns, and leaves every representative with a
    tier that is the old one or a higher one: the tier changes only for the
    representative of the item's key, only to the item's tier, and exactly
    when the item's tier ranks strictly higher, the ranks being those of
    [low(1) < medium(2) < high(3)]. *)
Theorem tier_never_lowered (lower : string -> string) (m : dict)
  (item : DetectedItem) (k : string) (rep : DetectedItem) :
  Forall valid_tier (dict_values m) ->
  valid_tier item ->
  dict_get m k = Some rep ->
  exists m' rep',
    consolidate_step lower m item = Ok m' /\
    dict_get m' k = Some rep' /\
    tier_rank (confidence rep) <= tier_rank (confidence rep') /\
    (confidence rep' = confidence rep \/
     k = item_key lower item /\ confidence rep' = confidence item /\
     tier_rank (confidence rep) < tier_rank (confidence item)) /\
    (tier_rank (confidence item) <= tier_rank (confidence rep) ->
     confidence rep' = confidence rep) /\
    (k = item_key lower item ->
     tier_rank (confidence rep) < tier_rank (confidence item) ->
     confidence rep' = confidence item).
Proof.
  intros Vm Vi Hg.
  destruct (consolidate_loop_total lower [item] m Vm) as (m' & E & _).
  { constructor; auto. }
  simpl in E.
  destruct (consolidate_step lower m item) as [m1|] eqn:Es; simpl in E;
    [|discriminate].
  injection E as ->. exists m'.
  apply consolidate_step_inv in Es as [Hother Hsame].
  destruct (String.eqb_spec k (item_key lower item)) as [->|Hne].
  - rewrite Hg in Hsame. destruct Hsame as (rep' & Em & Hg' & _).
    exists rep'. rewrite <- !level_tier_rank.
    split; [reflexivity|]. split; [exact Hg'|].
    apply merge_into_inv in Em as (_ & _ & _ & _ & _ & Hl & Hc).
    rewrite Hc. destruct (Z.gtb_spec (level item) (level rep)).
    + repeat split; try lia. right. repeat split; auto. 
    + repeat split; try lia. now left.
  - exists rep. rewrite <- !level_tier_rank.
    rewrite (Hother k Hne). repeat split; auto; try lia.
    intros; congruence.
Qed.

Lemma tier_never_lowered_witness :
  exists m' rep',
    consolidate_step ascii_lower
      [("laptop-electronics", laptop 1 "medium" "p1")]
      (laptop 1 "high" "p2") = Ok m' /\
    dict_get m' "laptop-electronics" = Some rep' /\
    tier_rank (confidence (laptop 1 "medium" "p1"))
    <= tier_rank (confidence rep') /\
    (confidence rep' = confidence (laptop 1 "medium" "p1") \/
     "laptop-electronics" = item_key ascii_lower (laptop 1 "high" "p2") /\
     confidence rep' = confidence (laptop 1 "high" "p2") /\
     tier_rank (confidence (laptop 1 "medium" "p1"))
     < tier_rank (confidence (laptop 1 "high" "p2"))) /\
    (tier_rank (confidence (laptop 1 "high" "p2"))
     <= tier_rank (confidence (laptop 1 "medium" "p1")) ->
     confidence rep' = confidence (laptop 1 "medium" "p1")) /\
    ("laptop-electronics" = item_key ascii_lower (laptop 1 "high" "p2") ->
     tier_rank (confidence (laptop 1 "medium" "p1"))
     < tier_rank (confidence (laptop 1 "high" "p2")) ->
     confidence rep' = confidence (laptop 1 "high" "p2")).
Proof.
  apply (tier_never_lowered ascii_lower
           [("laptop-electronics", laptop 1 "medium" "p1")]
           (laptop 1 "high" "p2") "laptop-electronics"
           (laptop 1 "medium" "p1")).
  - repeat constructor.
  - reflexivity.
  - reflexivity.
Defined.

(** ** The item builder and the handlers *)

Lemma confidence_level_of_tier (score : spec_float) :
  is_tier (confidence_level_of score) = true.
Proof.
  unfold confidence_level_of.
  destruct (float_ge score float_0_8); [reflexivity|].
  destruct (float_ge score float_0_5); reflexivity.
Qed.

Section HandlerFacts.

Variable lower title : string -> string.
Variable str_of_exn : exn -> string.
Variable World Image : Type.
Variable http_get_image : string -> World -> result Image * World.
Variable run_model :
  Image -> spec_float -> World -> result (list (Z * spec_float)) * World.
Variable model_names : Z -> result string.

Local Abbreviation build := (map_detection_to_item lower title).
Local Abbreviation one_photo :=
  (photo_items lower title str_of_exn World Image http_get_image
     run_model model_names).
Local Abbreviation loop :=
  (analyze_loop lower title str_of_exn World Image http_get_image
     run_model model_names).

Lemma map_detection_to_item_valid (det : Detection) (url : string) :
  valid_tier (build det url) /\ quantity (build det url) = 1.
Proof. split; [apply confidence_level_of_tier | reflexivity]. Qed.

Lemma photo_items_built (url : string) (w w' : World)
  (built : list DetectedItem) :
  one_photo url w = (Ok built, w') ->
  exists detections, built = map (fun det => build det url) detections.
Proof.
  unfold photo_items, io_bind, io_ret.
  destruct (download_image str_of_exn World Image http_get_image url w)
    as [[image|e] w1]; [|discriminate].
  destruct (detect_objects str_of_exn World Image run_model model_names
            image float_0_5 w1) as [[dets|e] w2]; [|discriminate].
  intros [= <- _]. eauto.
Qed.

Lemma photo_items_valid (url : string) (w w' : World)
  (built : list DetectedItem) :
  one_photo url w = (Ok built, w') -> Forall valid_tier built.
Proof.
  intros H. apply photo_items_built in H as [dets ->].
  apply Forall_forall. intros item Hin.
  apply in_map_iff in Hin as (det & <- & _).
  apply map_detection_to_item_valid.
Qed.

Lemma analyze_loop_valid (urls : list string) :
  forall all_items w pooled w',
    Forall valid_tier all_items ->
    loop urls all_items w = (pooled, w') ->
    Forall valid_tier pooled.
Proof.
  induction urls as [|url urls IH]; intros all_items w pooled w' Hv; simpl.
  - now intros [= <- _].
  - destruct (one_photo url w) as [[built|e] w1] eqn:E.
    + apply IH. apply Forall_app. split; auto.
      eapply photo_items_valid; eauto.
    + now apply IH.
Qed.

Lemma analyze_loop_all_fail (urls : list string) :
  forall all_items w,
    all_photos_fail lower title str_of_exn World Image http_get_image
      run_model model_names urls w ->
    fst (loop urls all_items w) = all_items.
Proof.
  induction urls as [|url urls IH]; intros all_items w; simpl; auto.
  intros (e & w1 & E & Hrest). rewrite E. now apply IH.
Qed.

(** C4. The multi-photo handler never raises: for every request and every
    behaviour of the network and of the model it returns a response whose
    [photosAnalyzed] is the number of URLs of the request, and when every
    photo fails the items of that response are the empty list. *)
Theorem multi_photo_always_succeeds (request : AnalyzeMultipleRequest)
  (w : World) :
  exists consolidated w',
    analyze_multiple_photos lower title str_of_exn World Image
      http_get_image run_model model_names request w
    = (Ok (mkResponse consolidated
             (Z.of_nat (List.length (photoUrls request)))), w') /\
    (all_photos_fail lower title str_of_exn World Image http_get_image
       run_model model_names (photoUrls request) w ->
     consolidated = []).
Proof.
  unfold analyze_multiple_photos.
  destruct (loop (photoUrls request) [] w) as [pooled w'] eqn:E.
  pose proof (analyze_loop_valid _ _ _ _ _ (Forall_nil _) E) as Hv.
  destruct (consolidate_items_total lower _ Hv) as [out Hout].
  exists out, w'. rewrite Hout. simpl. split; [reflexivity|].
  intros Hfail. apply (analyze_loop_all_fail _ []) in Hfail.
  rewrite E in Hfail. simpl in Hfail. subst pooled.
  cbv in Hout. congruence.
Qed.

(** The single-photo handler, in contrast, hands a failed download on to
    its caller. *)
Lemma single_photo_propagates (request : AnalyzeRequest) (w w' : World)
  (e : exn) :
  http_get_image (photoUrl request) w = (Raise e, w') ->
  exists detail,
    analyze_photo lower title str_of_exn World Image http_get_image
      run_model model_names request w
    = (Raise (HTTPException 400 detail), w').
Proof.
  intros H. unfold analyze_photo, photo_items, io_bind, download_image,
    io_try, io_lift. rewrite H. eauto.
Qed.

End HandlerFacts.

(** ** Floats against the thresholds *)

Lemma digits2_pos_bounds (m : positive) :
  2 ^ (Zpos (digits2_pos m) - 1) <= Zpos m < 2 ^ Zpos (digits2_pos m).
Proof.
  induction m as [m IH|m IH|]; cbn [digits2_pos].
  - rewrite Pos2Z.inj_succ.
    replace (Z.succ (Zpos (digits2_pos m)) - 1) with (Zpos (digits2_pos m)) by lia.
    rewrite Z.pow_succ_r by lia.
    replace (Zpos (digits2_pos m)) with (Z.succ (Zpos (digits2_pos m) - 1)) at 1
      by lia.
    rewrite Z.pow_succ_r by lia. lia.
  - rewrite Pos2Z.inj_succ.
    replace (Z.succ (Zpos (digits2_pos m)) - 1) with (Zpos (digits2_pos m)) by lia.
    rewrite Z.pow_succ_r by lia.
    replace (Zpos (digits2_pos m)) with (Z.succ (Zpos (digits2_pos m) - 1)) at 1
      by lia.
    rewrite Z.pow_succ_r by lia. lia.
  - simpl. lia.
Qed.

(** What being a double says about the mantissa of a finite float. *)
Lemma is_float_finite (s : bool) (m : positive) (e : Z) :
  is_float (S754_finite s m e) = true ->
  Zpos m < 2 ^ 53 /\ (-1074 < e -> 2 ^ 52 <= Zpos m).
Proof.
  unfold is_float, valid_binary, bounded, canonical_mantissa, fexp, SpecFloat.emin,
    prec, emax.
  rewrite andb_true_iff, Z.eqb_eq. intros [Hc _].
  pose proof (digits2_pos_bounds m) as [Hlo Hhi].
  set (d := Zpos (digits2_pos m)) in *.
  assert (0 < d) by (subst d; lia).
  change (Z.max (d + e - 53) (-1074) = e) in Hc.
  split.
  - assert (d <= 53) by lia.
    eapply Z.lt_le_trans; [exact Hhi|]. apply Z.pow_le_mono_r; lia.
  - intros He. assert (d = 53) as Hd by lia. rewrite Hd in Hlo. exact Hlo.
Qed.

Lemma float_value_negative (m : positive) (e : Z) :
  (float_value true m e < 0)%Q.
Proof.
  unfold float_value, Qlt. destruct e as [|p|p]; cbn [Qnum Qden]; lia.
Qed.

Lemma float_value_large (m : positive) (e : Z) :
  -53 < e -> (-1074 < e -> 2 ^ 52 <= Zpos m) ->
  (1 <= float_value false m e)%Q.
Proof.
  intros He Hm. unfold float_value, Qle. destruct e as [|p|p]; cbn [Qnum Qden].
  - lia.
  - pose proof (Z.pow_pos_nonneg 2 (Zpos p)). nia.
  - rewrite Pos2Z.inj_pow.
    assert (2 ^ Zpos p <= 2 ^ 52) by (apply Z.pow_le_mono_r; lia).
    specialize (Hm ltac:(lia)). lia.
Qed.

Lemma float_value_small (m : positive) (e : Z) :
  e < -53 -> Zpos m < 2 ^ 53 ->
  (float_value false m e < 1 # 2)%Q.
Proof.
  intros He Hm. unfold float_value, Qlt.
  destruct e as [|p|p]; cbn [Qnum Qden]; try lia.
  rewrite Pos2Z.inj_pow.
  assert (2 ^ 54 <= 2 ^ Zpos p) by (apply Z.pow_le_mono_r; lia).
  change (2 ^ 54) with (2 * 2 ^ 53) in *. lia.
Qed.

Lemma float_value_same_exponent (m m' p : positive) :
  (float_value false m (Zneg p) <= float_value false m' (Zneg p))%Q
  <-> (m <= m')%positive.
Proof.
  unfold float_value, Qle. cbn [Qnum Qden].
  split; intros H; nia.
Qed.

(** The comparison [x >= c] against a double [c] in [[1/2, 1)] with exponent
    -53 decides whether [x] is at least [q], for every rational [q] that
    [c] is the least double above. *)
Lemma float_ge_threshold (x : spec_float) (mc : positive) (q : Q) :
  is_float x = true ->
  (1 # 2 <= q)%Q -> (q <= 1)%Q ->
  (q <= float_value false mc (-53))%Q ->
  (forall m, (float_value false m (-53) < float_value false mc (-53))%Q ->
             (float_value false m (-53) < q)%Q) ->
  float_ge x (S754_finite false mc (-53)) = true <-> value_ge x q.
Proof.
  intros Hx Hlo Hhi Hc Hleast.
  destruct x as [s|s| |s m e]; unfold float_ge, SFleb, value_ge;
    cbn [SFcompare].
  - split; [discriminate|]. intros H.
    assert (1 # 2 <= 0)%Q as H0 by (eapply Qle_trans; eauto).
    unfold Qle in H0. simpl in H0. lia.
  - destruct s; split; congruence.
  - split; [discriminate|tauto].
  - apply is_float_finite in Hx as [Hm53 Hm52].
    destruct s.
    + split; [discriminate|]. intros H. exfalso.
      pose proof (float_value_negative m e) as Hneg.
      assert (1 # 2 < 0)%Q as H0.
      { eapply Qle_lt_trans; [exact Hlo|]. eapply Qle_lt_trans; eauto. }
      unfold Qlt in H0. simpl in H0. lia.
    + destruct (Z.compare_spec (-53) e) as [<-|He|He].
      * change (Pos.compare_cont Eq mc m) with (mc ?= m)%positive.
        destruct (Pos.compare_spec mc m) as [<-|Hlt|Hgt].
        -- split; auto.
        -- split; auto. intros _. eapply Qle_trans; [exact Hc|].
           apply float_value_same_exponent. lia.
        -- split; [discriminate|]. intros H. exfalso.
           apply (Qlt_irrefl q). eapply Qle_lt_trans; [exact H|].
           apply Hleast. apply Qnot_le_lt. intros Hle.
           apply float_value_same_exponent in Hle. lia.
      * split; auto. intros _. eapply Qle_trans; [exact Hhi|].
        apply float_value_large; auto.
      * split; [discriminate|]. intros H. exfalso.
        apply (Qlt_irrefl q). eapply Qle_lt_trans; [exact H|].
        eapply Qlt_le_trans; [|exact Hlo]. apply float_value_small; auto.
Qed.

Lemma float_ge_0_8 (x : spec_float) :
  is_float x = true ->
  float_ge x float_0_8 = true <-> value_ge x (8 # 10).
Proof.
  intros Hx. apply float_ge_threshold; auto.
  - vm_compute. discriminate.
  - vm_compute. discriminate.
  - vm_compute. discriminate.
  - intros m. unfold Qlt, float_value. cbn [Qnum Qden].
    change (2 ^ 53)%positive with 9007199254740992%positive. lia.
Qed.

Lemma float_ge_0_5 (x : spec_float) :
  is_float x = true ->
  float_ge x float_0_5 = true <-> value_ge x (5 # 10).
Proof.
  intros Hx. apply float_ge_threshold; auto.
  - vm_compute. discriminate.
  - vm_compute. discriminate.
  - vm_compute. discriminate.
  - intros m. unfold Qlt, float_value. cbn [Qnum Qden].
    change (2 ^ 53)%positive with 9007199254740992%positive. lia.
Qed.

Lemma value_ge_weaken (x : spec_float) (q q' : Q) :
  (q' <= q)%Q -> value_ge x q -> value_ge x q'.
Proof.
  intros Hq. destruct x; simpl; auto; intros H; eapply Qle_trans; eauto.
Qed.

(** The doubles used for the literals are the ones nearest to the decimal
    numbers written in the source and in the specification. *)
Lemma literals_are_nearest :
  nearest_double float_0_8 (8 # 10) /\
  nearest_double float_0_5 (5 # 10) /\
  nearest_double float_0_7999 (7999 # 10000) /\
  nearest_double float_0_4999 (4999 # 10000).
Proof.
  repeat split; vm_compute; discriminate.
Qed.

(** C5. For a detection whose confidence score is a double, the item
    builder gives the tier [high] exactly when the score is at least 0.8,
    [medium] exactly when it is at least 0.5 and not at least 0.8, and [low]
    otherwise; the scores 0.8, 0.7999, 0.5 and 0.4999 give [high], [medium],
    [medium] and [low]. *)
Theorem tier_thresholds (lower title : string -> string)
  (detection : Detection) (photo_url : string) :
  is_float (det_confidence detection) = true ->
  let score := det_confidence detection in
  let tier :=
    confidence
      (map_detection_to_item lower title detection photo_url) in
  (tier = "high" <-> value_ge score (8 # 10)) /\
  (tier = "medium" <-> value_ge score (5 # 10) /\ ~ value_ge score (8 # 10)) /\
  (tier = "low" <-> ~ value_ge score (5 # 10)) /\
  (forall class_name,
     map (fun x =>
            confidence
              (map_detection_to_item lower title
                 (mkDetection class_name x) photo_url))
         [float_0_8; float_0_7999; float_0_5; float_0_4999]
     = ["high"; "medium"; "medium"; "low"]).
Proof.
  intros Hx score tier. subst tier. simpl. fold score.
  unfold confidence_level_of.
  pose proof (float_ge_0_8 score Hx) as H8.
  pose proof (float_ge_0_5 score Hx) as H5.
  assert (value_ge score (8 # 10) -> value_ge score (5 # 10)) as Hw.
  { apply value_ge_weaken. vm_compute. discriminate. }
  destruct (float_ge score float_0_8); [|destruct (float_ge score float_0_5)].
  - assert (value_ge score (8 # 10)) by now apply H8.
    repeat split; auto; try discriminate; try tauto.
  - assert (value_ge score (5 # 10)) by now apply H5.
    assert (~ value_ge score (8 # 10)) by (intros Hn; apply H8 in Hn; discriminate).
    repeat split; auto; try discriminate; try tauto.
  - assert (~ value_ge score (5 # 10)) by (intros Hn; apply H5 in Hn; discriminate).
    repeat split; auto; try discriminate; try tauto.
Qed.

Lemma tier_thresholds_witness :
  let detection := mkDetection "laptop" float_0_7999 in
  let score := det_confidence detection in
  let tier :=
    confidence
      (map_detection_to_item ascii_lower ascii_title detection "p1") in
  (tier = "high" <-> value_ge score (8 # 10)) /\
  (tier = "medium" <-> value_ge score (5 # 10) /\ ~ value_ge score (8 # 10)) /\
  (tier = "low" <-> ~ value_ge score (5 # 10)) /\
  (forall class_name,
     map (fun x =>
            confidence
              (map_detection_to_item ascii_lower ascii_title
                 (mkDetection class_name x) "p1"))
         [float_0_8; float_0_7999; float_0_5; float_0_4999]
     = ["high"; "medium"; "medium"; "low"]).
Proof.
  apply (tier_thresholds ascii_lower ascii_title
           (mkDetection "laptop" float_0_7999) "p1").
  reflexivity.
Defined.

(** ** References and records agree *)

Lemma heap_get_lt (h : heap) (r : ref) (v : DetectedItem) :
  heap_get h r = Some v -> (r < List.length h)%nat.
Proof.
  intros H. apply nth_error_Some. unfold heap_get in H. congruence.
Qed.

Lemma heap_get_set_same (h : heap) (r : ref) (v : DetectedItem) :
  (r < List.length h)%nat -> heap_get (heap_set h r v) r = Some v.
Proof.
  revert r. induction h as [|x h IH]; intros [|r]; simpl; try lia; auto.
  intros H. apply IH. lia.
Qed.

Lemma heap_get_set_other (h : heap) (r r' : ref) (v : DetectedItem) :
  r <> r' -> heap_get (heap_set h r v) r' = heap_get h r'.
Proof.
  revert r r'. induction h as [|x h IH]; intros [|r] [|r']; simpl; auto;
    try congruence.
Qed.

Lemma heap_set_length (h : heap) (r : ref) (v : DetectedItem) :
  List.length (heap_set h r v) = List.length h.
Proof.
  revert r. induction h as [|x h IH]; intros [|r]; simpl; auto.
Qed.

Lemma run_load (h : heap) (r : ref) (v : DetectedItem) :
  heap_get h r = Some v -> load r h = (Ok v, h).
Proof. unfold load. now intros ->. Qed.

Section ReferenceFacts.

Variable lower : string -> string.

Local Abbreviation K := (item_key lower).

Lemma held_get (h : heap) (rm : dict_of ref) (m : dict) (k : string) :
  Forall2 (held h) rm m ->
  match dict_get rm k, dict_get m k with
  | Some r, Some v => heap_get h r = Some v
  | None, None => True
  | _, _ => False
  end.
Proof.
  induction 1 as [|[k1 r1] [k2 v2] rm m [Hk Hv] _ IH]; simpl; auto.
  simpl in Hk, Hv. subst k2. destruct (String.eqb k1 k); auto.
Qed.

Lemma held_keys (h : heap) (rm : dict_of ref) (m : dict) :
  Forall2 (held h) rm m -> dict_keys rm = dict_keys m.
Proof.
  induction 1 as [|[k1 r1] [k2 v2] rm m [Hk Hv] _ IH]; simpl; auto.
  simpl in Hk. congruence.
Qed.

Lemma held_In (h : heap) (rm : dict_of ref) (m : dict) (k : string)
  (r : ref) :
  Forall2 (held h) rm m -> In (k, r) rm ->
  exists v, In (k, v) m /\ heap_get h r = Some v.
Proof.
  induction 1 as [|[k1 r1] [k2 v2] rm m [Hk Hv] _ IH]; simpl; [tauto|].
  simpl in Hk, Hv. subst k2. intros [[= -> ->]|Hin].
  - exists v2. auto.
  - destruct (IH Hin) as (v & Hv' & Hg). eauto.
Qed.

(** A reference stored in the dictionary is stored under the key of
    the object it leads to. *)
Lemma held_key (h : heap) (rm : dict_of ref) (m : dict) (k : string)
  (r : ref) (v : DetectedItem) :
  Forall2 (held h) rm m ->
  Forall (fun kv => K (snd kv) = fst kv) m ->
  In (k, r) rm -> heap_get h r = Some v -> K v = k.
Proof.
  intros Hh Hk Hin Hg. destruct (held_In _ _ _ _ _ Hh Hin) as (v' & Hv' & Hg').
  rewrite Forall_forall in Hk. specialize (Hk _ Hv'). simpl in Hk. congruence.
Qed.

Lemma held_heap_change (h h' : heap) (rm : dict_of ref) (m : dict) :
  Forall2 (held h) rm m ->
  (forall k r, In (k, r) rm -> heap_get h' r = heap_get h r) ->
  Forall2 (held h') rm m.
Proof.
  induction 1 as [|[k1 r1] [k2 v2] rm m [Hk Hv] _ IH]; intros Hsame;
    constructor.
  - split; [exact Hk|]. simpl in *. rewrite (Hsame k1 r1); auto.
  - apply IH. intros k r Hin. apply (Hsame k r). now right.
Qed.

Lemma held_update (h h' : heap) (rm : dict_of ref) (m : dict) (k : string)
  (r : ref) (v' : DetectedItem) :
  Forall2 (held h) rm m ->
  NoDup (dict_keys rm) ->
  dict_get rm k = Some r ->
  heap_get h' r = Some v' ->
  (forall k' r', In (k', r') rm -> k' <> k ->
                 heap_get h' r' = heap_get h r') ->
  Forall2 (held h') rm (dict_set m k v').
Proof.
  induction 1 as [|[k1 r1] [k2 v2] rm m [Hk Hv] Hrest IH]; simpl;
    [discriminate|].
  simpl in Hk, Hv. subst k2. intros Hnd Hg Hr Hother.
  inversion Hnd as [|? ? Hnotin Hnd']; subst.
  destruct (String.eqb_spec k1 k) as [->|Hne].
  - injection Hg as ->. constructor; [split; auto|].
    apply (held_heap_change h); auto.
    intros k' r' Hin. apply (Hother k' r'); [now right|].
    intros ->. apply Hnotin. change k with (fst (k, r')).
    now apply in_map.
  - constructor.
    + split; auto. simpl. rewrite (Hother k1 r1); auto.
    + apply IH; auto. intros k' r' Hin. apply Hother. now right.
Qed.

Lemma stands_for_start (h : heap) : stands_for lower h h [] [].
Proof.
  split; [constructor|]. split; [apply dict_ok_nil|].
  split; [auto|]. split; [|reflexivity].
  intros a v v0 Hv Hv0. assert (v = v0) as -> by congruence.
  split; [apply same_identity_refl | now left].
Qed.

Lemma stands_for_insert (h0 h : heap) (rm : dict_of ref) (m : dict)
  (a : ref) (item : DetectedItem) :
  stands_for lower h0 h rm m ->
  dict_get rm (K item) = None ->
  heap_get h a = Some item ->
  stands_for lower h0 h (dict_set rm (K item) a) (dict_set m (K item) item).
Proof.
  intros (Hheld & Hok & Hout & Hhist & Hlen) Hnone Ha.
  pose proof (held_get h rm m (K item) Hheld) as Hg. rewrite Hnone in Hg.
  destruct (dict_get m (K item)) eqn:Em; [contradiction|].
  split; [|split; [|split; [|split]]]; auto.
  - rewrite !dict_set_absent by assumption.
    apply Forall2_app; auto. constructor; [|constructor]. split; auto.
  - apply (consolidate_step_ok lower m _ item Hok).
    unfold consolidate_step. now rewrite Em.
  - intros x Hx. apply Hout. intros Hin. apply Hx.
    rewrite dict_set_absent by assumption.
    unfold dict_values. rewrite map_app, in_app_iff. now left.
Qed.

Lemma stands_for_merge (h0 h hf : heap) (rm : dict_of ref) (m : dict)
  (r : ref) (v item rep' : DetectedItem) :
  stands_for lower h0 h rm m ->
  dict_get rm (K item) = Some r ->
  heap_get h r = Some v ->
  merge_into v item = Ok rep' ->
  heap_get hf r = Some rep' ->
  (forall x, x <> r -> heap_get hf x = heap_get h x) ->
  List.length hf = List.length h ->
  stands_for lower h0 hf rm (dict_set m (K item) rep').
Proof.
  intros (Hheld & Hok & Hout & Hhist & Hlen) Hr Hv Hm Hf Hother Hlenf.
  pose proof (held_get h rm m (K item) Hheld) as Hg. rewrite Hr in Hg.
  destruct (dict_get m (K item)) as [v'|] eqn:Em; [|contradiction].
  assert (v' = v) as -> by congruence.
  pose proof (dict_get_In _ _ _ Hr) as Hin.
  pose proof Hok as [Hnd Hkeys].
  assert (K v = K item) as Hkv by (eapply held_key; eauto).
  pose proof (merge_into_inv _ _ _ Hm) as (Hid & _ & Vv & _ & Vr & Hl & _).
  split; [|split; [|split; [|split]]].
  - apply (held_update h hf rm m (K item) r rep'); auto.
    + rewrite (held_keys _ _ _ Hheld). exact Hnd.
    + intros k' r' Hin' Hne. apply Hother. intros ->.
      destruct (held_In _ _ _ _ _ Hheld Hin') as (v2 & _ & Hv2).
      apply Hne. rewrite <- Hkv. symmetry. eapply held_key; eauto.
  - apply (consolidate_step_ok lower m _ item Hok).
    unfold consolidate_step. rewrite Em, Hm. reflexivity.
  - intros x Hx. rewrite Hother.
    + now apply Hout.
    + intros ->. apply Hx. change r with (snd (K item, r)).
      now apply in_map.
  - intros x w w0 Hw Hw0. destruct (Nat.eq_dec x r) as [->|Hne].
    + assert (w = rep') as -> by congruence.
      destruct (Hhist _ _ _ Hv Hw0) as [Hid0 Hc0]. split.
      * eapply same_identity_trans; eauto.
      * right. destruct Hc0 as [Hc0|(V0 & _ & Hl0)].
        -- assert (valid_tier w0) as V0
             by (unfold valid_tier in *; rewrite <- Hc0; exact Vv).
           assert (level w0 = level v) as Hl0
             by (unfold level; rewrite Hc0; reflexivity).
           repeat split; auto. lia.
        -- repeat split; auto. lia.
    + rewrite Hother in Hw by assumption. eauto.
  - congruence.
Qed.

(** An object met in the input that is not a representative has not
    been written to. *)
Lemma untouched_unless_representative (h0 h : heap) (rm : dict_of ref)
  (m : dict) (a : ref) (it : DetectedItem) :
  stands_for lower h0 h rm m ->
  heap_get h a = Some it ->
  dict_get rm (K it) <> Some a ->
  heap_get h0 a = Some it.
Proof.
  intros (Hheld & [Hnd Hkeys] & Hout & _) Ha Hne.
  rewrite <- Ha. symmetry. apply Hout. intros Hin.
  apply in_map_iff in Hin as ([k a'] & Heq & Hin). simpl in Heq. subst a'.
  apply Hne. assert (K it = k) as -> by (eapply held_key; eauto).
  apply dict_In_get; auto. now rewrite (held_keys _ _ _ Hheld).
Qed.

(** One iteration on references does what one iteration on records
    does. *)
Lemma consolidate_step_agrees (h0 h : heap) (rm : dict_of ref) (m : dict)
  (a : ref) (item0 : DetectedItem) :
  stands_for lower h0 h rm m ->
  heap_get h0 a = Some item0 ->
  ends_alike (fun h' rm' m' => stands_for lower h0 h' rm' m')
    (consolidate_step_ref lower rm a h) (consolidate_step lower m item0).
Proof.
  intros Hs Ha0. pose proof Hs as (Hheld & Hok & Hout & Hhist & Hlen).
  destruct (heap_get h a) as [it|] eqn:Ha.
  2:{ apply heap_get_lt in Ha0. apply nth_error_None in Ha. lia. }
  destruct (Hhist _ _ _ Ha Ha0) as [Hid Hconf].
  apply (same_identity_keys lower) in Hid as [_ Hk].
  unfold consolidate_step_ref, consolidate_step, mem_bind.
  rewrite (run_load _ _ _ Ha). cbv zeta. rewrite Hk.
  pose proof (held_get h rm m (K item0) Hheld) as Hg.
  destruct (dict_get rm (K item0)) as [r|] eqn:Er;
    destruct (dict_get m (K item0)) as [v|] eqn:Em; try contradiction.
  - (* the key is in the dictionary *)
    rewrite (run_load _ _ _ Hg). unfold store.
    set (v1 := set_quantity v (quantity v + 1)).
    set (h1 := heap_set h r v1).
    assert (heap_get h1 r = Some v1) as Hr1.
    { apply heap_get_set_same. eapply heap_get_lt; eauto. }
    assert (forall x, x <> r -> heap_get h1 x = heap_get h x) as Hx1.
    { intros x Hx. apply heap_get_set_other. congruence. }
    assert (List.length h1 = List.length h) as Hl1
      by apply heap_set_length.
    rewrite (run_load _ _ _ Hr1). unfold mem_lift, merge_into.
    fold v1. change (confidence v1) with (confidence v).
    destruct (confidence_levels (confidence v)) as [cl|e] eqn:Ecl; simpl;
      [|reflexivity].
    assert (exists new,
              heap_get h1 a = Some new /\
              match confidence_levels (confidence new),
                    confidence_levels (confidence item0) with
              | Ok nl, Ok nl0 =>
                  (nl >? cl) = (nl0 >? cl) /\
                  ((nl >? cl) = true -> confidence new = confidence item0)
              | Raise e, Raise e0 => e = e0
              | _, _ => False
              end) as (new & Hnew & Hlevels).
    { destruct (Nat.eq_dec a r) as [->|Har].
      - exists v1. split; [exact Hr1|].
        change (confidence v1) with (confidence v). rewrite Ecl.
        assert (it = v) as -> by congruence.
        destruct Hconf as [Hc|(V0 & _ & Hle)].
        + rewrite <- Hc, Ecl. split; auto.
        + rewrite (level_valid _ V0).
          rewrite (level_of_Ok _ _ Ecl) in Hle.
          rewrite !Z.gtb_ltb, Z.ltb_irrefl.
          split; [symmetry; apply Z.ltb_ge; lia | discriminate].
      - exists item0. rewrite Hx1 by assumption.
        assert (heap_get h0 a = Some it) as Hit.
        { eapply untouched_unless_representative; eauto.
          rewrite Hk, Er. congruence. }
        assert (it = item0) as -> by congruence.
        split; [exact Ha|].
        destruct (confidence_levels (confidence item0)); auto. }
    rewrite (run_load _ _ _ Hnew).
    destruct (confidence_levels (confidence new)) as [nl|e] eqn:Enl;
      destruct (confidence_levels (confidence item0)) as [nl0|e0] eqn:Enl0;
      try contradiction; simpl; [|exact Hlevels].
    destruct Hlevels as [Hgt Hsame]. rewrite <- Hgt.
    destruct (nl >? cl) eqn:Egt.
    + rewrite (run_load _ _ _ Hnew), (run_load _ _ _ Hr1). simpl.
      rewrite Hsame by reflexivity.
      apply (stands_for_merge h0 h _ rm m r v item0); auto.
      * unfold merge_into. fold v1. change (confidence v1) with (confidence v).
        rewrite Ecl, Enl0. simpl. rewrite <- Hgt. reflexivity.
      * apply heap_get_set_same. rewrite Hl1. eapply heap_get_lt; eauto.
      * intros x Hx. rewrite heap_get_set_other by congruence. auto.
      * rewrite heap_set_length. exact Hl1.
    + simpl. apply (stands_for_merge h0 h _ rm m r v item0); auto.
      unfold merge_into. fold v1. change (confidence v1) with (confidence v).
      rewrite Ecl, Enl0. simpl. rewrite <- Hgt. reflexivity.
  - (* a new key *)
    unfold mem_ret. simpl.
    assert (heap_get h0 a = Some it) as Hit.
    { eapply untouched_unless_representative; eauto.
      rewrite Hk, Er. discriminate. }
    assert (it = item0) as -> by congruence.
    now apply stands_for_insert.
Qed.

Lemma consolidate_loop_agrees (h0 : heap) (refs : list ref)
  (records : list DetectedItem) :
  points_to h0 refs records ->
  forall h rm m,
    stands_for lower h0 h rm m ->
    ends_alike (fun h' rm' m' => stands_for lower h0 h' rm' m')
      (consolidate_loop_ref lower refs rm h)
      (consolidate_loop lower records m).
Proof.
  induction 1 as [|a item0 refs records Ha _ IH]; intros h rm m Hs.
  - exact Hs.
  - pose proof (consolidate_step_agrees h0 h rm m a item0 Hs Ha) as Hstep.
    cbn [consolidate_loop_ref consolidate_loop]. unfold mem_bind.
    destruct (consolidate_step_ref lower rm a h) as [[rm'|e] h'];
      destruct (consolidate_step lower m item0) as [m'|e'];
      simpl in Hstep; try contradiction; simpl.
    + now apply IH.
    + exact Hstep.
Qed.

End ReferenceFacts.

(** X14. Run on the objects themselves, with the items updated in place and
    whatever sharing there is between the items of the input,
    [consolidate_items] ends as it does on the records: it raises the same
    exception, or it returns references that lead, in the heap it leaves,
    to the records returned there. *)
Theorem consolidate_items_in_place (lower : string -> string) (h : heap)
  (refs : list ref) (records : list DetectedItem) :
  points_to h refs records ->
  ends_alike (fun h' out_refs out => points_to h' out_refs out)
    (consolidate_items_ref lower refs h) (consolidate_items lower records).
Proof.
  intros Hp.
  pose proof (consolidate_loop_agrees lower h refs records Hp h [] []
                (stands_for_start lower h)) as Hloop.
  unfold consolidate_items_ref, consolidate_items, mem_bind.
  destruct (consolidate_loop_ref lower refs [] h) as [[rm'|e] h'];
    destruct (consolidate_loop lower records []) as [m'|e'];
    simpl in Hloop; try contradiction; simpl; [|exact Hloop].
  destruct Hloop as [Hheld _]. unfold points_to, dict_values.
  induction Hheld as [|[k r] [k' v] rm m [_ Hv] _ IH]; simpl; constructor; auto.
Qed.

(** The same object three times, and another of its key in between. *)
Example consolidate_shared_object :
  consolidate_items_ref ascii_lower [0%nat; 1%nat; 0%nat; 0%nat]
    [laptop 1 "low" "p1"; laptop 1 "high" "p2"]
  = (Ok [0%nat], [laptop 4 "high" "p1"; laptop 1 "high" "p2"]).
Proof. reflexivity. Qed.

(** ** The handlers at work *)

Example two_photos_consolidated :
  analyze_multiple_photos ascii_lower ascii_title sample_str nat string
    sample_http sample_model sample_names (mkMultipleRequest [photo_1; photo_2]) O
  = (Ok (mkResponse
           [ mkItem "Laptop" "Detected with 92% confidence" "electronics" 2
               "good" "high" true photo_1;
             mkItem "Mouse" "Detected with 85% confidence" "electronics" 1
               "good" "high" true photo_2 ]
           2),
     4%nat).
Proof. vm_compute. reflexivity. Qed.

Example partial_failure :
  analyze_multiple_photos ascii_lower ascii_title sample_str nat string
    sample_http sample_model sample_names (mkMultipleRequest [photo_3; photo_1]) O
  = (Ok (mkResponse
           [ mkItem "Laptop" "Detected with 92% confidence" "electronics" 1
               "good" "high" true photo_1 ]
           2),
     3%nat).
Proof. vm_compute. reflexivity. Qed.

Example single_photo_failure :
  analyze_photo ascii_lower ascii_title sample_str nat string sample_http
    sample_model sample_names (mkRequest photo_3) O
  = (Raise (HTTPException 400 "Failed to download image: 404 Client Error"),
     1%nat).
Proof. vm_compute. reflexivity. Qed.

Lemma multi_photo_always_succeeds_witness :
  exists consolidated w',
    analyze_multiple_photos ascii_lower ascii_title sample_str nat string
      sample_http sample_model sample_names (mkMultipleRequest [photo_3; photo_3]) O
    = (Ok (mkResponse consolidated
             (Z.of_nat (List.length
                          (photoUrls (mkMultipleRequest [photo_3; photo_3]))))),
       w') /\
    consolidated = [].
Proof.
  destruct (multi_photo_always_succeeds ascii_lower ascii_title sample_str
              nat string sample_http sample_model sample_names
              (mkMultipleRequest [photo_3; photo_3]) O)
    as (consolidated & w' & Hrun & Hempty).
  exists consolidated, w'. split; [exact Hrun|]. apply Hempty.
  simpl. do 2 eexists. split; [vm_compute; reflexivity|].
  do 2 eexists. split; [vm_compute; reflexivity|]. exact I.
Defined.

(** ** The item builder: categories and keys *)

Lemma has_dash_app (a b : string) :
  has_dash (a ++ String "-" b) = true.
Proof.
  induction a as [|c a IH]; simpl; [reflexivity|].
  rewrite IH. apply orb_true_r.
Qed.

(** A name and a category are read back from their joined key when the
    category has no ["-"]. *)
Lemma joined_key_inj (a a' c c' : string) :
  has_dash c = false -> has_dash c' = false ->
  (a ++ "-" ++ c = a' ++ "-" ++ c')%string -> a = a' /\ c = c'.
Proof.
  intros Hc Hc'. revert a'.
  induction a as [|x a IH]; intros [|x' a']; simpl; intros H.
  - injection H as ->. auto.
  - injection H as <- ->. rewrite has_dash_app in Hc. discriminate.
  - injection H as -> <-. rewrite has_dash_app in Hc'. discriminate.
  - injection H as -> H. destruct (IH _ H) as [-> ->]. auto.
Qed.

Lemma mapping_get_cases (mapping : list (string * string))
  (key default : string) :
  mapping_get mapping key default = default /\ ~ In key (map fst mapping) \/
  In (key, mapping_get mapping key default) mapping.
Proof.
  induction mapping as [|[k v] mapping IH]; simpl; [tauto|].
  destruct (String.eqb_spec k key) as [->|Hne]; [auto|].
  destruct IH as [[IH1 IH2]|IH]; [left|right]; intuition congruence.
Qed.

Lemma mapping_get_In (mapping : list (string * string))
  (key default value : string) :
  NoDup (map fst mapping) -> In (key, value) mapping ->
  mapping_get mapping key default = value.
Proof.
  induction mapping as [|[k v] mapping IH]; simpl; [tauto|].
  intros Hnd [Heq|Hin].
  - injection Heq as -> ->. now rewrite String.eqb_refl.
  - inversion Hnd as [|? ? Hnotin Hnd']; subst.
    destruct (String.eqb_spec k key) as [->|Hne]; auto.
    exfalso. apply Hnotin. change key with (fst (key, value)).
    now apply in_map.
Qed.

Lemma CATEGORY_MAPPING_keys_distinct : NoDup (map fst CATEGORY_MAPPING).
Proof.
  assert (nodup string_dec (map fst CATEGORY_MAPPING)
          = map fst CATEGORY_MAPPING) as <- by (vm_compute; reflexivity).
  apply NoDup_nodup.
Qed.

Lemma categories_have_no_dash :
  Forall (fun c => has_dash c = false) categories.
Proof.
  apply Forall_forall. intros c Hc.
  assert (forallb (fun c => negb (has_dash c)) categories = true) as H
    by (vm_compute; reflexivity).
  rewrite forallb_forall in H. specialize (H c Hc).
  now destruct (has_dash c).
Qed.

Lemma built_category (lower title : string -> string) (detection : Detection)
  (url : string) :
  In (category (map_detection_to_item lower title detection url)) categories.
Proof.
  unfold map_detection_to_item. cbn [category].
  destruct (mapping_get_cases CATEGORY_MAPPING (lower (det_class detection))
              "uncategorized") as [[-> _]|H].
  - now left.
  - right. change (mapping_get CATEGORY_MAPPING (lower (det_class detection))
                     "uncategorized")
      with (snd (lower (det_class detection),
                 mapping_get CATEGORY_MAPPING (lower (det_class detection))
                   "uncategorized")).
    now apply in_map.
Qed.

(** X1. The dictionary key separates the items of the item builder: two
    built items get the same key only if they have the same
    [(lowercase(name), category)] pair, since no category of the table
    contains the separator.  So built items with pairwise different pairs
    come back from [consolidate_items] unchanged and in order. *)
Theorem built_items_keys_separate (lower title : string -> string)
  (detections : list (Detection * string)) :
  let built :=
    map (fun du => map_detection_to_item lower title (fst du) (snd du))
        detections in
  collision_free lower built /\
  (NoDup (map (consolidation_key lower) built) ->
   consolidate_items lower built = Ok built).
Proof.
  intros built.
  assert (collision_free lower built) as Hcf.
  { intros a b Ha Hb Hk. unfold built in Ha, Hb.
    apply in_map_iff in Ha as ([da ua] & <- & _).
    apply in_map_iff in Hb as ([db ub] & <- & _).
    pose proof categories_have_no_dash as Hno. rewrite Forall_forall in Hno.
    unfold item_key in Hk. unfold consolidation_key.
    apply joined_key_inj in Hk as [-> ->]; auto using built_category. }
  split; [exact Hcf|]. intros Hnd. now apply distinct_keys_unchanged.
Qed.

Lemma built_items_keys_separate_witness :
  let built :=
    map (fun du => map_detection_to_item ascii_lower ascii_title
                     (fst du) (snd du))
        [(mkDetection "laptop" float_0_92, photo_1);
         (mkDetection "t-shirt" float_0_5, photo_1);
         (mkDetection "mouse" float_0_85, photo_2)] in
  collision_free ascii_lower built /\
  consolidate_items ascii_lower built = Ok built.
Proof.
  destruct (built_items_keys_separate ascii_lower ascii_title
              [(mkDetection "laptop" float_0_92, photo_1);
               (mkDetection "t-shirt" float_0_5, photo_1);
               (mkDetection "mouse" float_0_85, photo_2)]) as [Hcf Hsame].
  split; [exact Hcf|]. apply Hsame.
  vm_compute.
  repeat constructor; simpl; intuition discriminate.
Defined.

(** X2. On a label that [str.lower] lowers as ASCII does (every ASCII
    label), the category of a built item is looked up without regard to
    case: a label that equals a key of [CATEGORY_MAPPING] up to ASCII case
    gets that key's category, and a label that equals no key up to ASCII
    case gets ["uncategorized"]. *)
Theorem category_lookup_ignores_case (lower title : string -> string)
  (label : string) (score : spec_float) (url : string) :
  lower label = ascii_lower label ->
  (forall k v, In (k, v) CATEGORY_MAPPING ->
     ascii_lower label = ascii_lower k ->
     category (map_detection_to_item lower title
                 (mkDetection label score) url) = v) /\
  ((forall k, In k (map fst CATEGORY_MAPPING) ->
      ascii_lower label <> ascii_lower k) ->
   category (map_detection_to_item lower title
               (mkDetection label score) url) = "uncategorized").
Proof.
  intros Hascii.
  assert (forall k, In k (map fst CATEGORY_MAPPING) -> ascii_lower k = k)
    as Hlow.
  { assert (forallb (fun k => String.eqb (ascii_lower k) k)
              (map fst CATEGORY_MAPPING) = true) as H
      by (vm_compute; reflexivity).
    rewrite forallb_forall in H. intros k Hk. apply String.eqb_eq. auto. }
  unfold map_detection_to_item. cbn [category det_class]. rewrite Hascii.
  split.
  - intros k v Hin Heq. rewrite Heq, Hlow.
    + apply mapping_get_In; auto. apply CATEGORY_MAPPING_keys_distinct.
    + change k with (fst (k, v)). now apply in_map.
  - intros Hno.
    destruct (mapping_get_cases CATEGORY_MAPPING (ascii_lower label)
                "uncategorized") as [[-> _]|H]; [reflexivity|].
    exfalso. apply (Hno (ascii_lower label)).
    + change (ascii_lower label)
        with (fst (ascii_lower label,
                   mapping_get CATEGORY_MAPPING (ascii_lower label)
                     "uncategorized")).
      now apply in_map.
    + symmetry. apply Hlow.
      change (ascii_lower label)
        with (fst (ascii_lower label,
                   mapping_get CATEGORY_MAPPING (ascii_lower label)
                     "uncategorized")).
      now apply in_map.
Qed.

Lemma category_lookup_ignores_case_witness :
  category (map_detection_to_item ascii_lower ascii_title
              (mkDetection "Cell PHONE" float_0_92) photo_1) = "electronics"
  /\ category (map_detection_to_item ascii_lower ascii_title
                 (mkDetection "person" float_0_92) photo_1) = "uncategorized".
Proof.
  split.
  - apply (proj1 (category_lookup_ignores_case ascii_lower ascii_title
                    "Cell PHONE" float_0_92 photo_1 eq_refl) "cell phone").
    + vm_compute. tauto.
    + reflexivity.
  - apply (proj2 (category_lookup_ignores_case ascii_lower ascii_title
                    "person" float_0_92 photo_1 eq_refl)).
    intros k Hk.
    assert (forallb (fun k => negb (String.eqb (ascii_lower "person")
                                      (ascii_lower k)))
              (map fst CATEGORY_MAPPING) = true) as H
      by (vm_compute; reflexivity).
    rewrite forallb_forall in H. specialize (H k Hk).
    intros Heq. rewrite Heq, String.eqb_refl in H. discriminate.
Defined.

(** ** More on the consolidation routine *)

Lemma first_occurrences_length (ks : list string) :
  forall seen,
    (List.length (first_occurrences seen ks) <= List.length ks)%nat.
Proof.
  induction ks as [|k ks IH]; intros seen; simpl; [lia|].
  destruct (existsb (String.eqb k) seen); simpl.
  - specialize (IH seen). lia.
  - specialize (IH (seen ++ [k])). lia.
Qed.

Lemma total_quantity_app (l1 l2 : list DetectedItem) :
  total_quantity (l1 ++ l2) = total_quantity l1 + total_quantity l2.
Proof.
  unfold total_quantity. induction l1 as [|x l1 IH]; simpl; lia.
Qed.

Lemma total_quantity_set (m : dict) (k : string) (rep v : DetectedItem) :
  dict_get m k = Some rep ->
  total_quantity (dict_values (dict_set m k v))
  = total_quantity (dict_values m) - quantity rep + quantity v.
Proof.
  unfold total_quantity, dict_values.
  induction m as [|[k0 v0] m IH]; simpl; [discriminate|].
  destruct (String.eqb k0 k); simpl.
  - intros [= ->]. lia.
  - intros H. rewrite (IH H). lia.
Qed.

Lemma merge_into_raise (rep item : DetectedItem) (e : exn) :
  merge_into rep item = Raise e ->
  (e = KeyError (confidence rep) /\ is_tier (confidence rep) = false) \/
  (e = KeyError (confidence item) /\ is_tier (confidence item) = false).
Proof.
  assert (forall c e', confidence_levels c = Raise e' ->
            e' = KeyError c /\ is_tier c = false) as Hraise.
  { intros c e'. unfold confidence_levels, is_tier.
    destruct (String.eqb c "high"), (String.eqb c "medium"),
      (String.eqb c "low"); simpl; intros [= <-]; auto. }
  unfold merge_into. simpl.
  destruct (confidence_levels (confidence rep)) as [cl|e1] eqn:E1; simpl.
  - destruct (confidence_levels (confidence item)) as [nl|e2] eqn:E2; simpl.
    + destruct (nl >? cl); discriminate.
    + intros [= <-]. right. now apply Hraise.
  - intros [= <-]. left. now apply Hraise.
Qed.

Lemma dict_set_In {V : Type} (m : dict_of V) (k k' : string) (v v' : V) :
  In (k', v') (dict_set m k v) -> (k' = k /\ v' = v) \/ In (k', v') m.
Proof.
  induction m as [|[k0 v0] m IH]; simpl.
  - intros [[= <- <-]|[]]. auto.
  - destruct (String.eqb_spec k0 k) as [->|Hne]; simpl.
    + intros [[= <- <-]|H]; auto.
    + intros [H|H]; auto. apply IH in H. tauto.
Qed.

Section ConsolidateMore.

Variable lower : string -> string.

Local Abbreviation K := (item_key lower).

Lemma consolidate_loop_app (l1 l2 : list DetectedItem) :
  forall m,
    consolidate_loop lower (l1 ++ l2) m
    = (m1 <- consolidate_loop lower l1 m ;; consolidate_loop lower l2 m1).
Proof.
  induction l1 as [|item l1 IH]; intros m; simpl; [reflexivity|].
  destruct (consolidate_step lower m item) as [m1|e]; simpl; auto.
Qed.

Lemma dict_ok_rebuild (m : dict) :
  dict_ok lower m -> map (fun item => (K item, item)) (dict_values m) = m.
Proof.
  intros [_ H]. unfold dict_values. rewrite map_map.
  rewrite <- (map_id m) at 2. apply map_ext_in. intros [k v] Hin.
  rewrite Forall_forall in H. specialize (H _ Hin). simpl in *. now rewrite H.
Qed.

(** Consolidating the output again rebuilds the dictionary the loop ended
    with. *)
Lemma consolidate_loop_output (items : list DetectedItem) (m : dict) :
  consolidate_loop lower items [] = Ok m ->
  consolidate_loop lower (dict_values m) [] = Ok m.
Proof.
  intros E.
  pose proof (consolidate_loop_ok lower _ _ _ (dict_ok_nil lower) E) as Hok.
  rewrite consolidate_loop_distinct.
  - simpl. now rewrite dict_ok_rebuild.
  - rewrite (dict_ok_values lower m Hok). apply Hok.
  - reflexivity.
Qed.

(** Each iteration adds the quantity of a new item, or one for a merged
    item, to the sum of the quantities in the dictionary. *)
Lemma consolidate_loop_total_quantity (items : list DetectedItem) :
  forall m m',
    consolidate_loop lower items m = Ok m' ->
    Forall (fun item => quantity item = 1) items ->
    total_quantity (dict_values m')
    = total_quantity (dict_values m) + Z.of_nat (List.length items).
Proof.
  induction items as [|item items IH]; intros m m'; simpl.
  - intros [= <-] _. lia.
  - destruct (consolidate_step lower m item) as [m1|] eqn:E; simpl;
      [|discriminate].
    intros Hl Hq. inversion Hq as [|? ? Hq1 Hqs]; subst.
    rewrite (IH _ _ Hl Hqs).
    apply consolidate_step_inv in E as [_ Hsame].
    destruct (dict_get m (K item)) as [rep|] eqn:Eg.
    + destruct Hsame as (rep' & Em & _ & -> & _).
      rewrite (total_quantity_set _ _ _ _ Eg).
      apply merge_into_inv in Em as (_ & Hq' & _). lia.
    + destruct Hsame as [_ ->]. unfold dict_values. rewrite map_app.
      rewrite total_quantity_app. unfold total_quantity at 2. simpl. lia.
Qed.

(** When the loop raises, it raises [KeyError] for a confidence that is no
    tier, met in a merge: it is the confidence of an item of the input whose
    key is already in the dictionary or occurs at least twice in the input,
    or of a value of the dictionary whose key occurs in the input. *)
Lemma consolidate_loop_raise (items : list DetectedItem) :
  forall m e,
    consolidate_loop lower items m = Raise e ->
    exists c, e = KeyError c /\ is_tier c = false /\
      ((exists item, In item items /\ confidence item = c /\
          (In (K item) (dict_keys m) \/
           (2 <= List.length (filter (keyed lower (K item)) items))%nat)) \/
       (exists k v item, In (k, v) m /\ confidence v = c /\
          In item items /\ K item = k)).
Proof.
  induction items as [|item items IH]; intros m e; simpl; [discriminate|].
  assert (keyed lower (K item) item = true) as Hself
    by (apply String.eqb_refl).
  destruct (consolidate_step lower m item) as [m1|e1] eqn:E; simpl.
  - intros Hl. apply IH in Hl as (c & -> & Hc & Hfrom).
    exists c. split; [reflexivity|]. split; [exact Hc|].
    apply consolidate_step_inv in E as [_ Hsame].
    destruct Hfrom as [(it & Hin & Hconf & Hwhere)|(k & v & it & Hkv & Hconf & Hin & Hk)].
    + left. exists it. split; [now right|]. split; [exact Hconf|].
      destruct Hwhere as [Hkeys|Hcount].
      * destruct (dict_get m (K item)) as [rep|] eqn:Eg.
        -- destruct Hsame as (_ & _ & _ & _ & <-). now left.
        -- destruct Hsame as [_ ->]. unfold dict_keys in Hkeys.
           rewrite map_app, in_app_iff in Hkeys. simpl in Hkeys.
           destruct Hkeys as [Hkeys|[Heq|[]]]; [now left|]. right.
           assert (keyed lower (K it) item = true) as ->
             by (unfold keyed; rewrite Heq; apply String.eqb_refl).
           simpl.
           assert (In it (filter (keyed lower (K it)) items)) as Hf
             by (apply filter_In; split; auto; apply String.eqb_refl).
           destruct (filter (keyed lower (K it)) items); [contradiction|].
           simpl. lia.
      * right. destruct (keyed lower (K it) item); simpl; lia.
    + destruct (dict_get m (K item)) as [rep|] eqn:Eg.
      * destruct Hsame as (rep' & Em & _ & -> & _).
        apply dict_set_In in Hkv as [[-> ->]|Hkv].
        -- apply merge_into_inv in Em as (_ & _ & _ & _ & Vr & _).
           unfold valid_tier in Vr. congruence.
        -- right. exists k, v, it. auto.
      * destruct Hsame as [_ ->]. apply in_app_iff in Hkv as [Hkv|[[= <- <-]|[]]].
        -- right. exists k, v, it. auto.
        -- left. exists item. split; [now left|]. split; [exact Hconf|].
           right. rewrite Hself. simpl.
           assert (In it (filter (keyed lower (K item)) items)) as Hf
             by (apply filter_In; split; auto; now apply keyed_true).
           destruct (filter (keyed lower (K item)) items); [contradiction|].
           simpl. lia.
  - intros [= <-]. unfold consolidate_step in E.
    destruct (dict_get m (K item)) as [rep|] eqn:Eg; [|discriminate].
    destruct (merge_into rep item) as [rep'|e'] eqn:Em; simpl in E;
      [discriminate|]. injection E as <-.
    apply merge_into_raise in Em as [[-> Hc]|[-> Hc]].
    + exists (confidence rep). repeat split; auto. right.
      exists (K item), rep, item. repeat split; auto using dict_get_In.
    + exists (confidence item). repeat split; auto. left.
      exists item. repeat split; auto. left.
      apply dict_get_In in Eg. change (K item) with (fst (K item, rep)).
      now apply in_map.
Qed.

End ConsolidateMore.

(** X3. [consolidate_items] returns its input as it is exactly when the
    dictionary keys of the items are pairwise different, whatever their
    confidences are: nothing is merged, so no confidence is looked up. *)
Theorem returns_input_iff_keys_distinct (lower : string -> string)
  (items : list DetectedItem) :
  consolidate_items lower items = Ok items
  <-> NoDup (map (item_key lower) items).
Proof.
  split.
  - intros E. now apply consolidate_items_inv in E as (_ & Hnd & _).
  - apply consolidate_distinct.
Qed.

Lemma consolidate_batches (lower : string -> string)
  (batch1 batch2 out1 : list DetectedItem) :
  consolidate_items lower batch1 = Ok out1 ->
  consolidate_items lower (out1 ++ batch2)
  = consolidate_items lower (batch1 ++ batch2).
Proof.
  unfold consolidate_items. intros E.
  destruct (consolidate_loop lower batch1 []) as [m|] eqn:E1; simpl in E;
    [|discriminate].
  injection E as <-.
  rewrite !consolidate_loop_app, E1.
  now rewrite (consolidate_loop_output lower _ _ E1).
Qed.

(** X4. Consolidation can be done in steps: consolidating a first batch and
    then the result followed by a second batch gives what consolidating
    both batches at once gives, exceptions included. *)
Theorem consolidate_in_batches (lower : string -> string)
  (batch1 batch2 out1 : list DetectedItem) :
  consolidate_items lower batch1 = Ok out1 ->
  consolidate_items lower (out1 ++ batch2)
  = consolidate_items lower (batch1 ++ batch2).
Proof. apply consolidate_batches. Qed.

Lemma consolidate_in_batches_witness :
  consolidate_items ascii_lower
    ([laptop 2 "high" "p1";
      mkItem "Mouse" "Detected with 85% confidence" "electronics" 1 "good"
        "high" true "p1";
      mkItem "Cup" "Detected with 40% confidence" "kitchen" 1 "good"
        "low" true "p2"] ++ three_laptops)
  = consolidate_items ascii_lower
      ([laptop 1 "medium" "p1";
        mkItem "Mouse" "Detected with 85% confidence" "electronics" 1 "good"
          "high" true "p1";
        laptop 1 "high" "p2";
        mkItem "Cup" "Detected with 40% confidence" "kitchen" 1 "good"
          "low" true "p2"] ++ three_laptops).
Proof.
  apply (consolidate_in_batches ascii_lower). reflexivity.
Defined.

(** X5. In a list with several keys too, the tier of every output item is
    the tier of an input item with its dictionary key that no input item
    with that key outranks under [low(1) < medium(2) < high(3)]. *)
Theorem output_tier_is_highest_of_its_key (lower : string -> string)
  (items : list DetectedItem) :
  Forall valid_tier items ->
  exists out,
    consolidate_items lower items = Ok out /\
    Forall (fun rep =>
      exists top,
        In top items /\ item_key lower top = item_key lower rep /\
        confidence rep = confidence top /\
        Forall (fun item =>
                  tier_rank (confidence item) <= tier_rank (confidence top))
          (filter (keyed lower (item_key lower rep)) items)) out.
Proof.
  intros Hv. destruct (consolidate_items_total lower _ Hv) as [out E].
  exists out. split; [exact E|].
  pose proof (consolidate_items_inv lower _ _ E) as (_ & _ & Hreps).
  eapply Forall_impl; [|exact Hreps]. intros rep (f & dups & Hf & Hm).
  rewrite Hf.
  apply merge_all_inv in Hm as (_ & _ & _ & _ & Vr & Hl).
  destruct (max_level_attained (f :: dups)) as (top & Hin & Hlt & Hall);
    [discriminate|].
  assert (In top items /\ keyed lower (item_key lower rep) top = true)
    as [Hti Htk] by (apply filter_In; now rewrite Hf).
  assert (valid_tier f /\ valid_tier top) as [Vf Vt].
  { rewrite Forall_forall in Hv. split; apply Hv; auto.
    eapply filter_head_In; eauto. }
  exists top. split; [exact Hti|]. split; [now apply keyed_true|].
  split.
  2:{ eapply Forall_impl; [|exact Hall]. intros a Ha. cbv beta in Ha.
      now rewrite <- !level_tier_rank. }
  apply same_level_same_tier; auto. rewrite Hl, Hlt. reflexivity.
Qed.

Lemma output_tier_is_highest_of_its_key_witness :
  exists out,
    consolidate_items ascii_lower mixed_items = Ok out /\
    Forall (fun rep =>
      exists top,
        In top mixed_items /\
        item_key ascii_lower top = item_key ascii_lower rep /\
        confidence rep = confidence top /\
        Forall (fun item =>
                  tier_rank (confidence item) <= tier_rank (confidence top))
          (filter (keyed ascii_lower (item_key ascii_lower rep)) mixed_items))
      out.
Proof.
  apply (output_tier_is_highest_of_its_key ascii_lower mixed_items).
  repeat constructor.
Defined.

(** X6. The only exception [consolidate_items] raises is [KeyError] for the
    confidence of an input item that is no tier and whose dictionary key
    occurs at least twice in the input. *)
Theorem only_unknown_tier_raises (lower : string -> string)
  (items : list DetectedItem) (e : exn) :
  consolidate_items lower items = Raise e ->
  exists item,
    In item items /\ e = KeyError (confidence item) /\
    is_tier (confidence item) = false /\
    (2 <= List.length (filter (keyed lower (item_key lower item)) items))%nat.
Proof.
  unfold consolidate_items.
  destruct (consolidate_loop lower items []) as [m|e'] eqn:E; simpl;
    [discriminate|].
  intros [= ->].
  apply consolidate_loop_raise in E as (c & -> & Hc & Hfrom).
  destruct Hfrom as [(item & Hin & <- & Hwhere)|(k & v & _ & [] & _)].
  exists item. repeat split; auto. destruct Hwhere as [[]|H]; exact H.
Qed.

Lemma only_unknown_tier_raises_witness :
  exists item,
    In item [laptop 1 "high" "p1"; laptop 1 "certain" "p2"] /\
    KeyError "certain" = KeyError (confidence item) /\
    is_tier (confidence item) = false /\
    (2 <= List.length
            (filter (keyed ascii_lower (item_key ascii_lower item))
               [laptop 1 "high" "p1"; laptop 1 "certain" "p2"]))%nat.
Proof.
  apply (only_unknown_tier_raises ascii_lower
           [laptop 1 "high" "p1"; laptop 1 "certain" "p2"]
           (KeyError "certain")).
  reflexivity.
Defined.

(** X7. The output is never longer than the input; positive quantities
    stay positive; and when every input item has quantity 1 the quantities
    of the output add up to the number of input items. *)
Theorem consolidate_keeps_count (lower : string -> string)
  (items : list DetectedItem) :
  Forall valid_tier items ->
  exists out,
    consolidate_items lower items = Ok out /\
    (List.length out <= List.length items)%nat /\
    (Forall (fun item => 1 <= quantity item) items ->
     Forall (fun rep => 1 <= quantity rep) out) /\
    (Forall (fun item => quantity item = 1) items ->
     total_quantity out = Z.of_nat (List.length items)).
Proof.
  intros Hv. destruct (consolidate_items_total lower _ Hv) as [out E].
  exists out. split; [exact E|].
  pose proof (consolidate_items_inv lower _ _ E) as (Hkeys & _ & Hreps).
  split; [|split].
  - rewrite <- (length_map (item_key lower) out), Hkeys.
    rewrite <- (length_map (item_key lower) items).
    apply first_occurrences_length.
  - intros Hpos. eapply Forall_impl; [|exact Hreps].
    intros rep (f & dups & Hf & Hm).
    apply merge_all_inv in Hm as (_ & Hq & _).
    apply filter_head_In in Hf as [Hin _].
    rewrite Forall_forall in Hpos. specialize (Hpos _ Hin). lia.
  - intros Hone. unfold consolidate_items in E.
    destruct (consolidate_loop lower items []) as [m|] eqn:El; simpl in E;
      [|discriminate].
    injection E as <-.
    rewrite (consolidate_loop_total_quantity lower _ _ _ El Hone).
    reflexivity.
Qed.

Lemma consolidate_keeps_count_witness :
  exists out,
    consolidate_items ascii_lower mixed_items = Ok out /\
    (List.length out <= List.length mixed_items)%nat /\
    (Forall (fun item => 1 <= quantity item) mixed_items ->
     Forall (fun rep => 1 <= quantity rep) out) /\
    (Forall (fun item => quantity item = 1) mixed_items ->
     total_quantity out = Z.of_nat (List.length mixed_items)).
Proof.
  apply (consolidate_keeps_count ascii_lower mixed_items).
  repeat constructor.
Defined.

Section OrderIndependence.

Variable lower : string -> string.

Local Abbreviation K := (item_key lower).

Lemma filter_perm {A : Type} (p : A -> bool) (l l' : list A) :
  Permutation l l' -> Permutation (filter p l) (filter p l').
Proof.
  induction 1 as [|x l l' _ IH|x y l|l l' l'' _ IH1 _ IH2]; simpl.
  - constructor.
  - destruct (p x); auto.
  - destruct (p x), (p y); auto. apply perm_swap.
  - eapply Permutation_trans; eauto.
Qed.

(** What the output holds for a key: present exactly when the key occurs
    in the input, with the highest tier of the items of the key, and with
    a quantity of the first item's plus one for each other item. *)
Lemma output_by_key (items out : list DetectedItem) :
  Forall valid_tier items ->
  consolidate_items lower items = Ok out ->
  (forall k c,
     In (k, c) (map (fun rep => (K rep, confidence rep)) out) <->
     In k (map K items) /\
     confidence_levels c = Ok (max_level (filter (keyed lower k) items))) /\
  (forall q, Forall (fun item => quantity item = q) items ->
     forall k n,
       In (k, n) (map (fun rep => (K rep, quantity rep)) out) <->
       In k (map K items) /\
       n = q + Z.of_nat (List.length (filter (keyed lower k) items)) - 1).
Proof.
  intros Hv E.
  pose proof (consolidate_items_inv lower _ _ E) as (Hkeys & _ & Hreps).
  rewrite Forall_forall in Hreps.
  assert (forall rep, In rep out ->
            In (K rep) (map K items) /\
            confidence_levels (confidence rep)
            = Ok (max_level (filter (keyed lower (K rep)) items)) /\
            forall q, Forall (fun item => quantity item = q) items ->
              quantity rep
              = q + Z.of_nat (List.length (filter (keyed lower (K rep)) items))
                - 1) as Hrep.
  { intros rep Hin. destruct (Hreps _ Hin) as (f & dups & Hf & Hm).
    rewrite Hf. pose proof (filter_head_In _ _ _ _ Hf) as [Hfin Hfk].
    apply merge_all_inv in Hm as (_ & Hq & _ & _ & Vr & Hl).
    rewrite Forall_forall in Hv. split; [|split].
    - apply keyed_true in Hfk. rewrite <- Hfk. now apply in_map.
    - rewrite (level_valid rep (Vr (Hv _ Hfin))), Hl. reflexivity.
    - intros q Hq'. rewrite Forall_forall in Hq'. rewrite Hq, (Hq' _ Hfin).
      cbn [List.length]. lia. }
  assert (forall k, In k (map K items) -> exists rep, In rep out /\ K rep = k)
    as Hcover.
  { intros k Hk.
    assert (In k (map K out)) as Hko
      by (rewrite Hkeys; apply first_occurrences_complete; auto).
    apply in_map_iff in Hko as (rep & <- & Hin). eauto. }
  split.
  - intros k c. split.
    + intros Hin. apply in_map_iff in Hin as (rep & [= <- <-] & Hin).
      destruct (Hrep _ Hin) as (H1 & H2 & _). auto.
    + intros [Hk Hc]. destruct (Hcover _ Hk) as (rep & Hin & <-).
      destruct (Hrep _ Hin) as (_ & H2 & _).
      rewrite (confidence_levels_inj _ _ _ Hc H2).
      apply (in_map (fun rep => (K rep, confidence rep))). exact Hin.
  - intros q Hq k n. split.
    + intros Hin. apply in_map_iff in Hin as (rep & [= <- <-] & Hin).
      destruct (Hrep _ Hin) as (H1 & _ & H3). auto.
    + intros [Hk ->]. destruct (Hcover _ Hk) as (rep & Hin & <-).
      destruct (Hrep _ Hin) as (_ & _ & H3). rewrite <- (H3 q Hq).
      apply (in_map (fun rep => (K rep, quantity rep))). exact Hin.
Qed.

Lemma keyed_output_perm {V : Type} (f : DetectedItem -> V)
  (out out' : list DetectedItem) :
  NoDup (map K out) -> NoDup (map K out') ->
  (forall x, In x (map (fun rep => (K rep, f rep)) out) <->
             In x (map (fun rep => (K rep, f rep)) out')) ->
  Permutation (map (fun rep => (K rep, f rep)) out)
              (map (fun rep => (K rep, f rep)) out').
Proof.
  intros Hnd Hnd' Hiff. apply NoDup_Permutation; auto.
  - apply (NoDup_map_compose (fun rep => (K rep, f rep)) fst). exact Hnd.
  - apply (NoDup_map_compose (fun rep => (K rep, f rep)) fst). exact Hnd'.
Qed.

End OrderIndependence.

(** X8. The order of the input only decides the order of the output and
    which item of a key lends its other fields: two orderings of the same
    items give the same keys with the same tiers, and with the same
    quantities when the items all carry one quantity. *)
Theorem consolidate_order_independent (lower : string -> string)
  (items items' : list DetectedItem) :
  Permutation items items' ->
  Forall valid_tier items ->
  exists out out',
    consolidate_items lower items = Ok out /\
    consolidate_items lower items' = Ok out' /\
    Permutation
      (map (fun rep => (item_key lower rep, confidence rep)) out)
      (map (fun rep => (item_key lower rep, confidence rep)) out') /\
    (forall q, Forall (fun item => quantity item = q) items ->
       Permutation
         (map (fun rep => (item_key lower rep, quantity rep)) out)
         (map (fun rep => (item_key lower rep, quantity rep)) out')).
Proof.
  intros Hp Hv.
  assert (Forall valid_tier items') as Hv'
    by (eapply Permutation_Forall; eauto).
  destruct (consolidate_items_total lower _ Hv) as [out E].
  destruct (consolidate_items_total lower _ Hv') as [out' E'].
  exists out, out'. split; [exact E|]. split; [exact E'|].
  pose proof (consolidate_items_inv lower _ _ E) as (_ & Hnd & _).
  pose proof (consolidate_items_inv lower _ _ E') as (_ & Hnd' & _).
  destruct (output_by_key lower _ _ Hv E) as [Ht Hq].
  destruct (output_by_key lower _ _ Hv' E') as [Ht' Hq'].
  assert (forall k, In k (map (item_key lower) items)
                    <-> In k (map (item_key lower) items')) as Hk.
  { intros k. split; apply Permutation_in;
      [|apply Permutation_sym]; now apply Permutation_map. }
  assert (forall k, Permutation (filter (keyed lower k) items)
                                (filter (keyed lower k) items')) as Hf
    by (intros k; now apply filter_perm).
  split.
  - apply keyed_output_perm; auto. intros [k c].
    rewrite Ht, Ht', Hk, (max_level_perm _ _ (Hf k)). reflexivity.
  - intros q Hall.
    assert (Forall (fun item => quantity item = q) items') as Hall'
      by (eapply Permutation_Forall; eauto).
    apply keyed_output_perm; auto. intros [k n].
    rewrite (Hq q Hall), (Hq' q Hall'), Hk,
      (Permutation_length (Hf k)). reflexivity.
Qed.

Lemma consolidate_order_independent_witness :
  exists out out',
    consolidate_items ascii_lower mixed_items = Ok out /\
    consolidate_items ascii_lower (rev mixed_items) = Ok out' /\
    Permutation
      (map (fun rep => (item_key ascii_lower rep, confidence rep)) out)
      (map (fun rep => (item_key ascii_lower rep, confidence rep)) out') /\
    (forall q, Forall (fun item => quantity item = q) mixed_items ->
       Permutation
         (map (fun rep => (item_key ascii_lower rep, quantity rep)) out)
         (map (fun rep => (item_key ascii_lower rep, quantity rep)) out')).
Proof.
  apply (consolidate_order_independent ascii_lower mixed_items
           (rev mixed_items)).
  - apply Permutation_rev.
  - repeat constructor.
Defined.

(** ** More on the handlers *)

Section HandlerMore.

Variable lower title : string -> string.
Variable str_of_exn : exn -> string.
Variable World Image : Type.
Variable http_get_image : string -> World -> result Image * World.
Variable run_model :
  Image -> spec_float -> World -> result (list (Z * spec_float)) * World.
Variable model_names : Z -> result string.

Local Abbreviation build := (map_detection_to_item lower title).
Local Abbreviation download :=
  (download_image str_of_exn World Image http_get_image).
Local Abbreviation detect :=
  (detect_objects str_of_exn World Image run_model model_names).
Local Abbreviation one_photo :=
  (photo_items lower title str_of_exn World Image http_get_image
     run_model model_names).
Local Abbreviation loop :=
  (analyze_loop lower title str_of_exn World Image http_get_image
     run_model model_names).
Local Abbreviation single :=
  (analyze_photo lower title str_of_exn World Image http_get_image
     run_model model_names).
Local Abbreviation multiple :=
  (analyze_multiple_photos lower title str_of_exn World Image http_get_image
     run_model model_names).

Lemma collect_detections_inv (boxes : list (Z * spec_float)) :
  forall detections,
    collect_detections model_names boxes = Ok detections ->
    Forall2 (fun det box => model_names (fst box) = Ok (det_class det) /\
                            det_confidence det = snd box)
      detections boxes.
Proof.
  induction boxes as [|[cls conf] boxes IH]; intros detections; simpl.
  - intros [= <-]. constructor.
  - destruct (model_names cls) as [label|] eqn:En; simpl; [|discriminate].
    destruct (collect_detections model_names boxes) as [rest|]; simpl;
      [|discriminate].
    intros [= <-]. constructor; auto.
Qed.

Lemma detect_objects_raises (image : Image) (threshold : spec_float)
  (w w' : World) (e : exn) :
  detect image threshold w = (Raise e, w') ->
  exists cause,
    e = HTTPException 500 ("Detection failed: " ++ str_of_exn cause).
Proof.
  unfold detect_objects, io_try, io_bind, io_lift.
  destruct (run_model image threshold w) as [[boxes|cause] w1].
  - destruct (collect_detections model_names boxes) as [dets|cause];
      [discriminate|].
    intros [= <- _]. now exists cause.
  - intros [= <- _]. now exists cause.
Qed.

Lemma download_image_raises (url : string) (w w' : World) (e : exn) :
  download url w = (Raise e, w') ->
  exists cause,
    e = HTTPException 400 ("Failed to download image: " ++ str_of_exn cause).
Proof.
  unfold download_image, io_try, io_lift.
  destruct (http_get_image url w) as [[image|cause] w1]; [discriminate|].
  intros [= <- _]. now exists cause.
Qed.

(** X9. [detect_objects] hands the image and the threshold to the model
    once; when it returns, it returns one detection per box, in order, with
    the label [model.names] gives the box's class and with the box's
    confidence; and whatever goes wrong, in the model or in looking up a
    label, it raises [HTTPException] with status 500 and no detection at
    all. *)
Theorem detect_objects_outcomes (image : Image) (threshold : spec_float)
  (w : World) :
  exists from_model w',
    run_model image threshold w = (from_model, w') /\
    match detect image threshold w with
    | (Ok detections, w'') =>
        w'' = w' /\
        exists boxes,
          from_model = Ok boxes /\
          Forall2 (fun det box =>
                     model_names (fst box) = Ok (det_class det) /\
                     det_confidence det = snd box) detections boxes
    | (Raise e, w'') =>
        w'' = w' /\
        exists cause,
          e = HTTPException 500 ("Detection failed: " ++ str_of_exn cause) /\
          (from_model = Raise cause \/
           exists boxes, from_model = Ok boxes /\
                         collect_detections model_names boxes = Raise cause)
    end.
Proof.
  unfold detect_objects, io_try, io_bind, io_lift.
  destruct (run_model image threshold w) as [[boxes|cause] w'] eqn:E.
  - exists (Ok boxes), w'. split; [reflexivity|].
    destruct (collect_detections model_names boxes) as [dets|cause] eqn:Ec.
    + split; [reflexivity|]. exists boxes. split; [reflexivity|].
      now apply collect_detections_inv.
    + split; [reflexivity|]. exists cause. split; [reflexivity|].
      right. eauto.
  - exists (Raise cause), w'. split; [reflexivity|].
    split; [reflexivity|]. exists cause. auto.
Qed.

(** X10. The single-photo handler answers a failed download with status
    400 and a failed detection with status 500, each with the cause in the
    detail, and in every other case with a response for one photo whose
    items are the consolidated built items; it raises nothing else, as
    consolidating built items cannot fail. *)
Theorem single_photo_outcomes (request : AnalyzeRequest) (w : World) :
  match download (photoUrl request) w with
  | (Raise e, w1) =>
      single request w = (Raise e, w1) /\
      exists cause,
        e = HTTPException 400
              ("Failed to download image: " ++ str_of_exn cause)
  | (Ok image, w1) =>
      match detect image float_0_5 w1 with
      | (Raise e, w2) =>
          single request w = (Raise e, w2) /\
          exists cause,
            e = HTTPException 500 ("Detection failed: " ++ str_of_exn cause)
      | (Ok detections, w2) =>
          exists consolidated,
            consolidate_items lower
              (map (fun det => build det (photoUrl request)) detections)
            = Ok consolidated /\
            single request w = (Ok (mkResponse consolidated 1), w2)
      end
  end.
Proof.
  unfold analyze_photo, photo_items, io_bind, io_ret, io_lift.
  destruct (download (photoUrl request) w) as [[image|e] w1] eqn:Ed.
  - destruct (detect image float_0_5 w1) as [[dets|e] w2] eqn:Et.
    + assert (Forall valid_tier
                (map (fun det => build det (photoUrl request)) dets)) as Hv.
      { apply Forall_forall. intros item Hin.
        apply in_map_iff in Hin as (det & <- & _).
        apply confidence_level_of_tier. }
      destruct (consolidate_items_total lower _ Hv) as [out Hout].
      exists out. split; [exact Hout|]. now rewrite Hout.
    + split; [reflexivity|]. eapply detect_objects_raises; eauto.
  - split; [reflexivity|]. eapply download_image_raises; eauto.
Qed.

(** X11. For a request with one URL the multi-photo handler gives the
    response of the single-photo handler when that one succeeds, and a
    response with no items for one photo when it raises. *)
Theorem one_photo_both_ways (photo_url : string) (w : World) :
  match
    analyze_photo lower title str_of_exn World Image http_get_image
      run_model model_names (mkRequest photo_url) w
  with
  | (Ok response, w') =>
      analyze_multiple_photos lower title str_of_exn World Image
        http_get_image run_model model_names
        (mkMultipleRequest [photo_url]) w
      = (Ok response, w')
  | (Raise _, w') =>
      analyze_multiple_photos lower title str_of_exn World Image
        http_get_image run_model model_names
        (mkMultipleRequest [photo_url]) w
      = (Ok (mkResponse [] 1), w')
  end.
Proof.
  unfold analyze_multiple_photos, analyze_photo, io_bind, io_ret, io_lift.
  cbn [photoUrls photoUrl analyze_loop List.length Z.of_nat].
  destruct (one_photo photo_url w) as [[built|e] w'] eqn:E.
  - pose proof (photo_items_valid lower title str_of_exn World Image
                  http_get_image run_model model_names _ _ _ _ E) as Hv.
    destruct (consolidate_items_total lower _ Hv) as [out Hout].
    cbn [app]. rewrite Hout. reflexivity.
  - reflexivity.
Qed.

Lemma analyze_loop_Forall (P : DetectedItem -> Prop) (urls : list string) :
  (forall det url, In url urls -> P (build det url)) ->
  forall all_items w,
    Forall P all_items -> Forall P (fst (loop urls all_items w)).
Proof.
  induction urls as [|url urls IH]; intros Hbuilt all_items w Hall; simpl;
    [exact Hall|].
  assert (forall det u, In u urls -> P (build det u)) as Hrest
    by (intros det u Hu; apply Hbuilt; now right).
  destruct (one_photo url w) as [[built|e] w1] eqn:E.
  - apply IH; auto. apply Forall_app. split; auto.
    apply photo_items_built in E as [dets ->].
    apply Forall_forall. intros item Hin.
    apply in_map_iff in Hin as (det & <- & _). apply Hbuilt. now left.
  - apply IH; auto.
Qed.

(** X12. Every item of a multi-photo response has a tier for confidence, a
    quantity of at least 1, the condition ["good"], the AI flag set, a
    category of the table or ["uncategorized"], and one of the requested
    URLs as its source photo; no two items have the same
    [(lowercase(name), category)] pair; and the quantities add up to the
    number of detections of the photos that succeeded. *)
Theorem multi_photo_response_shape (request : AnalyzeMultipleRequest)
  (w : World) :
  exists consolidated w',
    multiple request w
    = (Ok (mkResponse consolidated
             (Z.of_nat (List.length (photoUrls request)))), w') /\
    Forall (fun item =>
              valid_tier item /\ 1 <= quantity item /\
              condition item = "good" /\ aiGenerated item = true /\
              In (category item) categories /\
              In (sourcePhoto item) (photoUrls request)) consolidated /\
    NoDup (map (consolidation_key lower) consolidated) /\
    total_quantity consolidated
    = Z.of_nat (List.length (fst (loop (photoUrls request) [] w))).
Proof.
  unfold analyze_multiple_photos.
  pose proof (analyze_loop_Forall
    (fun item => valid_tier item /\ quantity item = 1 /\
                 condition item = "good" /\ aiGenerated item = true /\
                 In (category item) categories /\
                 In (sourcePhoto item) (photoUrls request))
    (photoUrls request)) as Hpool.
  assert (forall det url, In url (photoUrls request) ->
            valid_tier (build det url) /\ quantity (build det url) = 1 /\
            condition (build det url) = "good" /\
            aiGenerated (build det url) = true /\
            In (category (build det url)) categories /\
            In (sourcePhoto (build det url)) (photoUrls request)) as Hbuilt.
  { intros det url Hin. split; [apply confidence_level_of_tier|].
    split; [reflexivity|]. split; [reflexivity|]. split; [reflexivity|].
    split; [apply built_category | exact Hin]. }
  specialize (Hpool Hbuilt [] w (Forall_nil _)).
  destruct (loop (photoUrls request) [] w) as [pooled w'] eqn:E.
  simpl in Hpool.
  assert (Forall valid_tier pooled) as Hv
    by (eapply Forall_impl; [|exact Hpool]; simpl; tauto).
  destruct (consolidate_items_total lower _ Hv) as [out Hout].
  exists out, w'. rewrite Hout. simpl. split; [reflexivity|].
  pose proof (consolidate_items_inv lower _ _ Hout) as (_ & Hnd & Hreps).
  split; [|split].
  - eapply Forall_impl; [|exact Hreps]. intros rep (f & dups & Hf & Hm).
    apply merge_all_inv in Hm as (Hid & Hq & _ & _ & Vr & _).
    apply filter_head_In in Hf as [Hin _].
    rewrite Forall_forall in Hpool.
    destruct (Hpool _ Hin) as (Vf & Hq1 & Hc & Ha & Hcat & Hsrc).
    destruct Hid as (_ & Hic & _ & Hico & Hia & Hisrc).
    rewrite Hic, Hico, Hia, Hisrc. repeat split; auto. lia.
  - apply (NoDup_map_compose (consolidation_key lower)
             (fun k => (fst k ++ "-" ++ snd k)%string)).
    exact Hnd.
  - unfold consolidate_items in Hout.
    destruct (consolidate_loop lower pooled []) as [m|] eqn:El;
      simpl in Hout; [|discriminate].
    injection Hout as <-.
    rewrite (consolidate_loop_total_quantity lower _ _ _ El); [reflexivity|].
    eapply Forall_impl; [|exact Hpool]. simpl. tauto.
Qed.

Lemma analyze_loop_acc (urls : list string) :
  forall all_items w,
    loop urls all_items w
    = (all_items ++ fst (loop urls [] w), snd (loop urls [] w)).
Proof.
  induction urls as [|url urls IH]; intros all_items w; simpl.
  - now rewrite app_nil_r.
  - destruct (one_photo url w) as [[built|e] w1].
    + rewrite (IH (all_items ++ built)), (IH ([] ++ built)). simpl.
      now rewrite app_assoc.
    + apply IH.
Qed.

Lemma analyze_loop_app (urls1 urls2 : list string) :
  forall all_items w,
    loop (urls1 ++ urls2) all_items w
    = loop urls2 (fst (loop urls1 all_items w)) (snd (loop urls1 all_items w)).
Proof.
  induction urls1 as [|url urls1 IH]; intros all_items w; simpl;
    [reflexivity|].
  destruct (one_photo url w) as [[built|e] w1]; apply IH.
Qed.

(** X13. Photos can be analysed in two requests: the response for
    [urls1 ++ urls2] has the items obtained by consolidating the items of
    the response for [urls1] followed by the built items of [urls2] (taken
    in the world the first request leaves), and counts the photos of
    both. *)
Theorem multi_photo_in_two_requests (urls1 urls2 : list string) (w : World) :
  exists items1 w1 items w2,
    multiple (mkMultipleRequest urls1) w
    = (Ok (mkResponse items1 (Z.of_nat (List.length urls1))), w1) /\
    multiple (mkMultipleRequest (urls1 ++ urls2)) w
    = (Ok (mkResponse items
             (Z.of_nat (List.length urls1) + Z.of_nat (List.length urls2))),
       w2) /\
    loop urls2 [] w1 = (fst (loop urls2 [] w1), w2) /\
    consolidate_items lower (items1 ++ fst (loop urls2 [] w1)) = Ok items.
Proof.
  assert (forall urls, exists out w',
            multiple (mkMultipleRequest urls) w
            = (Ok (mkResponse out (Z.of_nat (List.length urls))), w'))
    as Hruns.
  { intros urls. unfold analyze_multiple_photos. cbn [photoUrls].
    destruct (loop urls [] w) as [pooled w'] eqn:E.
    pose proof (analyze_loop_valid lower title str_of_exn World Image
                  http_get_image run_model model_names _ _ _ _ _
                  (Forall_nil _) E) as Hv.
    destruct (consolidate_items_total lower _ Hv) as [out ->].
    simpl. eauto. }
  destruct (Hruns urls1) as (items1 & w1 & H1).
  destruct (Hruns (urls1 ++ urls2)) as (items & w2 & H).
  exists items1, w1, items, w2.
  rewrite length_app, Nat2Z.inj_add in H.
  split; [exact H1|]. split; [exact H|].
  unfold analyze_multiple_photos in H1, H. cbn [photoUrls] in H1, H.
  rewrite analyze_loop_app in H.
  destruct (loop urls1 [] w) as [pooled1 w1'] eqn:E1. cbn [fst snd] in H.
  destruct (consolidate_items lower pooled1) as [out1|] eqn:Ec1;
    simpl in H1; [|discriminate].
  injection H1 as -> ->.
  rewrite analyze_loop_acc in H.
  destruct (loop urls2 [] w1) as [pooled2 w2'] eqn:E2. cbn [fst snd] in H |- *.
  destruct (consolidate_items lower (pooled1 ++ pooled2)) as [out|] eqn:Ec;
    simpl in H; [|discriminate].
  injection H as -> _ ->. split; [reflexivity|].
  rewrite (consolidate_batches lower pooled1 pooled2 items1 Ec1).
  exact Ec.
Qed.

Lemma analyze_loop_Forall_photo (P : DetectedItem -> Prop)
  (urls : list string) :
  (forall url w w' built, one_photo url w = (Ok built, w') ->
                          Forall P built) ->
  forall all_items w,
    Forall P all_items -> Forall P (fst (loop urls all_items w)).
Proof.
  intros Hphoto.
  induction urls as [|url urls IH]; intros all_items w Hall; simpl;
    [exact Hall|].
  destruct (one_photo url w) as [[built|e] w1] eqn:E.
  - apply IH. apply Forall_app. split; eauto.
  - apply IH; auto.
Qed.

(** The items built for a photo follow the boxes the model returned for
    the threshold 0.5. *)
Lemma photo_items_from_model (url : string) (w w' : World)
  (built : list DetectedItem) :
  one_photo url w = (Ok built, w') ->
  exists image w1 boxes,
    run_model image float_0_5 w1 = (Ok boxes, w') /\
    Forall2 (fun item box => confidence item = confidence_level_of (snd box))
      built boxes.
Proof.
  unfold photo_items, io_bind, io_ret.
  destruct (download url w) as [[image|e] w1]; [|discriminate].
  unfold detect_objects, io_try, io_bind, io_lift.
  destruct (run_model image float_0_5 w1) as [[boxes|e] w2] eqn:Em;
    [|discriminate].
  destruct (collect_detections model_names boxes) as [dets|e] eqn:Ec;
    [|discriminate].
  intros [= <- <-]. exists image, w1, boxes. split; [exact Em|].
  pose proof (collect_detections_inv _ _ Ec) as Hb. clear Ec Em.
  induction Hb as [|det box dets boxes [_ Hc] _ IH]; cbn [map]; constructor.
  - unfold map_detection_to_item. cbn [confidence]. now rewrite Hc.
  - exact IH.
Qed.

(** X16. If the model keeps its promise to return only boxes whose
    confidence reaches the threshold it is given, no item of a multi-photo
    response has the tier ["low"]: the handlers ask for the threshold 0.5,
    the score from which the item builder gives ["medium"]. *)
Theorem no_low_tier_from_a_thresholding_model
  (request : AnalyzeMultipleRequest) (w : World) :
  (forall image w0 boxes w1,
     run_model image float_0_5 w0 = (Ok boxes, w1) ->
     Forall (fun box => float_ge (snd box) float_0_5 = true) boxes) ->
  exists consolidated w',
    multiple request w
    = (Ok (mkResponse consolidated
             (Z.of_nat (List.length (photoUrls request)))), w') /\
    Forall (fun item => confidence item = "medium" \/
                        confidence item = "high") consolidated.
Proof.
  intros Hmodel. unfold analyze_multiple_photos.
  pose proof (analyze_loop_Forall_photo
    (fun item => valid_tier item /\
                 (confidence item = "medium" \/ confidence item = "high"))
    (photoUrls request)) as Hpool.
  assert (forall url w0 w1 built, one_photo url w0 = (Ok built, w1) ->
            Forall (fun item => valid_tier item /\
                      (confidence item = "medium" \/
                       confidence item = "high")) built) as Hphoto.
  { intros url w0 w1 built E.
    pose proof (photo_items_valid lower title str_of_exn World Image
                  http_get_image run_model model_names _ _ _ _ E) as Hv.
    apply photo_items_from_model in E as (image & w2 & boxes & Em & Hb).
    apply Hmodel in Em. clear -Hv Hb Em.
    induction Hb as [|item box built boxes Hc _ IH]; constructor.
    - inversion Hv; inversion Em; subst. split; auto.
      rewrite Hc. unfold confidence_level_of.
      destruct (float_ge (snd box) float_0_8); auto.
      match goal with H : float_ge _ float_0_5 = true |- _ => rewrite H end.
      auto.
    - inversion Hv; inversion Em; subst. auto. }
  specialize (Hpool Hphoto [] w (Forall_nil _)).
  destruct (loop (photoUrls request) [] w) as [pooled w'] eqn:E.
  simpl in Hpool.
  assert (Forall valid_tier pooled) as Hv
    by (eapply Forall_impl; [|exact Hpool]; simpl; tauto).
  destruct (consolidate_items_total lower _ Hv) as [out Hout].
  exists out, w'. rewrite Hout. simpl. split; [reflexivity|].
  pose proof (consolidate_items_inv lower _ _ Hout) as (_ & _ & Hreps).
  eapply Forall_impl; [|exact Hreps]. intros rep (f & dups & Hf & Hm).
  apply merge_all_inv in Hm as (_ & _ & _ & _ & Vr & Hl).
  destruct (max_level_attained (f :: dups)) as (top & Hin & Hlt & _);
    [discriminate|].
  rewrite <- Hf in Hin. apply filter_In in Hin as [Hin _].
  apply filter_head_In in Hf as [Hfin _].
  rewrite Forall_forall in Hpool.
  destruct (Hpool _ Hin) as [Vt Htier]. destruct (Hpool _ Hfin) as [Vf _].
  rewrite (same_level_same_tier rep top); auto. rewrite Hl, Hlt. reflexivity.
Qed.

End HandlerMore.

Lemma no_low_tier_from_a_thresholding_model_witness :
  exists consolidated w',
    analyze_multiple_photos ascii_lower ascii_title sample_str nat string
      sample_http sample_model sample_names
      (mkMultipleRequest [photo_1; photo_3; photo_2]) O
    = (Ok (mkResponse consolidated
             (Z.of_nat (List.length
                (photoUrls (mkMultipleRequest [photo_1; photo_3; photo_2]))))),
       w') /\
    Forall (fun item => confidence item = "medium" \/
                        confidence item = "high") consolidated.
Proof.
  apply (no_low_tier_from_a_thresholding_model ascii_lower ascii_title
           sample_str nat string sample_http sample_model sample_names
           (mkMultipleRequest [photo_1; photo_3; photo_2]) O).
  intros image w0 boxes w1. unfold sample_model.
  destruct (String.eqb image photo_1); [|destruct (String.eqb image photo_2)];
    intros [= <- _]; repeat constructor.
Defined.

(** ** More on the routine run in place *)

Section InPlaceMore.

Variable lower : string -> string.

Local Abbreviation K := (item_key lower).

(** A step leaves the dictionary of references as it is, or adds the
    reference of the item under a new key. *)
Lemma consolidate_step_ref_dict (rm rm' : dict_of ref) (a : ref)
  (h h' : heap) :
  consolidate_step_ref lower rm a h = (Ok rm', h') ->
  rm' = rm \/ exists k, rm' = dict_set rm k a.
Proof.
  unfold consolidate_step_ref, mem_bind, load, store, mem_lift, mem_ret.
  repeat match goal with
         | |- context [match ?x with _ => _ end] => destruct x eqn:?
         | |- context [if ?x then _ else _] => destruct x eqn:?
         end;
    intros [= <- _]; eauto.
Qed.

Lemma dict_set_values_incl {V : Type} (m : dict_of V) (k : string) (v : V) :
  incl (dict_values (dict_set m k v)) (v :: dict_values m).
Proof.
  intros x Hx. unfold dict_values in Hx.
  apply in_map_iff in Hx as ([k' x'] & Heq & Hin). simpl in Heq. subst x'.
  apply dict_set_In in Hin. destruct Hin as [[_ ->]|Hin]; [now left|].
  right. change x with (snd (k', x)). now apply in_map.
Qed.

Lemma consolidate_loop_ref_refs (refs : list ref) :
  forall rm rm' h h',
    consolidate_loop_ref lower refs rm h = (Ok rm', h') ->
    incl (dict_values rm') (dict_values rm ++ refs).
Proof.
  induction refs as [|a refs IH]; intros rm rm' h h'; simpl.
  - unfold mem_ret. intros [= <- _]. rewrite app_nil_r. apply incl_refl.
  - unfold mem_bind.
    destruct (consolidate_step_ref lower rm a h) as [[rm1|e] h1] eqn:E;
      [|discriminate].
    intros Hl. apply IH in Hl. intros r Hr. apply Hl in Hr.
    apply in_app_iff in Hr. apply in_app_iff. simpl.
    destruct Hr as [Hr|Hr]; [|tauto].
    destruct (consolidate_step_ref_dict _ _ _ _ _ E) as [Heq|[k Heq]];
      subst rm1; [tauto|].
    apply dict_set_values_incl in Hr. destruct Hr as [<-|Hr]; tauto.
Qed.

(** Different keys are held by different objects. *)
Lemma held_values_NoDup (h : heap) (rm : dict_of ref) (m : dict) :
  Forall2 (held h) rm m -> dict_ok lower m -> NoDup (dict_values rm).
Proof.
  induction 1 as [|[k r] [k' v] rm m [Hk Hv] Hrest IH]; intros [Hnd Hkeys];
    simpl; [constructor|].
  simpl in Hk, Hv, Hnd. subst k'.
  inversion Hnd as [|? ? Hnotin Hnd']; subst.
  inversion Hkeys as [|? ? Hkv Hkeys']; subst. simpl in Hkv.
  constructor; [|apply IH; split; auto].
  intros Hin. apply in_map_iff in Hin as ([k2 r2] & Heq & Hin).
  simpl in Heq. subst r2.
  destruct (held_In lower _ _ _ _ _ Hrest Hin) as (v2 & Hin2 & Hv2).
  assert (v2 = v) as -> by congruence.
  rewrite Forall_forall in Hkeys'. specialize (Hkeys' _ Hin2).
  simpl in Hkeys'. apply Hnotin. rewrite <- Hkv, Hkeys'.
  change k2 with (fst (k2, v)). now apply in_map.
Qed.

(** What a run in place leaves behind. *)
Lemma consolidate_items_ref_frame (h : heap) (refs : list ref)
  (records : list DetectedItem) :
  points_to h refs records ->
  Forall valid_tier records ->
  exists out_refs h',
    consolidate_items_ref lower refs h = (Ok out_refs, h') /\
    incl out_refs refs /\ NoDup out_refs /\
    List.length h' = List.length h /\
    (forall a, ~ In a out_refs -> heap_get h' a = heap_get h a) /\
    (forall a v v', heap_get h a = Some v -> heap_get h' a = Some v' ->
       same_identity v' v).
Proof.
  intros Hp Hv.
  pose proof (consolidate_loop_agrees lower h refs records Hp h [] []
                (stands_for_start lower h)) as Hloop.
  destruct (consolidate_loop_total lower records [] (Forall_nil _) Hv)
    as (m & Em & _).
  rewrite Em in Hloop. unfold consolidate_items_ref, mem_bind, mem_ret.
  destruct (consolidate_loop_ref lower refs [] h) as [[rm|e] h'] eqn:Er;
    simpl in Hloop; [|contradiction].
  destruct Hloop as (Hheld & Hok & Hout & Hhist & Hlen).
  exists (dict_values rm), h'. split; [reflexivity|].
  split; [exact (consolidate_loop_ref_refs _ _ _ _ _ Er)|].
  split; [eapply held_values_NoDup; eauto|].
  split; [exact Hlen|]. split; [exact Hout|].
  intros a v v' Ha Ha'. now destruct (Hhist _ _ _ Ha' Ha).
Qed.

End InPlaceMore.

(** X15. Run in place on items whose confidences are tiers,
    [consolidate_items] returns some of the objects it was given, each
    once; it changes no object it does not return, creates none, and
    leaves the name, category, description, condition, AI flag and source
    photo of every object as they were. *)
Theorem consolidate_in_place_frame (lower : string -> string) (h : heap)
  (refs : list ref) (records : list DetectedItem) :
  points_to h refs records ->
  Forall valid_tier records ->
  exists out_refs h',
    consolidate_items_ref lower refs h = (Ok out_refs, h') /\
    incl out_refs refs /\ NoDup out_refs /\
    List.length h' = List.length h /\
    (forall a, ~ In a out_refs -> heap_get h' a = heap_get h a) /\
    (forall a v v', heap_get h a = Some v -> heap_get h' a = Some v' ->
       same_identity v' v).
Proof. apply consolidate_items_ref_frame. Qed.

Lemma consolidate_in_place_frame_witness :
  exists out_refs h',
    consolidate_items_ref ascii_lower [0%nat; 1%nat; 0%nat; 2%nat]
      three_laptops = (Ok out_refs, h') /\
    incl out_refs [0%nat; 1%nat; 0%nat; 2%nat] /\ NoDup out_refs /\
    List.length h' = List.length three_laptops /\
    (forall a, ~ In a out_refs -> heap_get h' a = heap_get three_laptops a) /\
    (forall a v v', heap_get three_laptops a = Some v ->
                    heap_get h' a = Some v' -> same_identity v' v).
Proof.
  apply (consolidate_in_place_frame ascii_lower three_laptops
           [0%nat; 1%nat; 0%nat; 2%nat]
           [nth 0 three_laptops (laptop 0 "" ""); nth 1 three_laptops (laptop 0 "" "");
            nth 0 three_laptops (laptop 0 "" ""); nth 2 three_laptops (laptop 0 "" "")]).
  - repeat constructor.
  - repeat constructor.
Defined.

Lemma consolidate_items_in_place_witness :
  ends_alike (fun h' out_refs out => points_to h' out_refs out)
    (consolidate_items_ref ascii_lower [0%nat; 1%nat; 0%nat; 2%nat]
       three_laptops)
    (consolidate_items ascii_lower
       [nth 0 three_laptops (laptop 0 "" ""); nth 1 three_laptops (laptop 0 "" "");
        nth 0 three_laptops (laptop 0 "" ""); nth 2 three_laptops (laptop 0 "" "")]).
Proof.
  apply (consolidate_items_in_place ascii_lower three_laptops).
  repeat constructor.
Defined.
